(** * WireGuard connection session report: a shallow embedding of
      [generate_wg_report.py] and the properties of its session
      reconstruction.

    The development follows the script top-down: calendar dates and zoned
    timestamps as the [datetime] module presents them, the command line
    date defaults ([parse_arguments]), the peer map ([load_peer_map]), the
    duration formatter ([format_duration]) and the three phases of
    [process_logs]: reading and filtering the log files, the stable sort by
    timestamp, and the per-peer state machine with its final pass over the
    peers that are still connected. *)

From stdpp Require Import gmap strings list pretty sorting.
From Stdlib Require Import ZArith Lia.

Local Open Scope Z_scope.

(** ** Calendar dates and zoned timestamps *)

Module Calendar.

(** A [datetime.date] is represented by its proleptic Gregorian ordinal
    ([date.toordinal()]): day 1 is 0001-01-01 and [MAXORDINAL] is
    9999-12-31.  The order of dates is the order of their ordinals. *)
Definition date := Z.

Definition MINORDINAL : Z := 1.
Definition MAXORDINAL : Z := 3652059.

(** [timedelta(days=n)] accepts [-999999999 <= n <= 999999999]. *)
Definition MAX_DELTA_DAYS : Z := 999999999.

(** An aware [datetime.datetime] without microseconds: the local
    calendar date, the local wall-clock time and the UTC offset in
    minutes, as the pattern's [[+-]\d{2}:\d{2}] suffix gives it. *)
Record datetime := mk_datetime {
  dt_date : date;
  dt_hour : Z;
  dt_minute : Z;
  dt_second : Z;
  dt_utcoffset : Z
}.

(** [timestamp_dt.date()]: the calendar date in the timestamp's own
    offset. *)
Definition date_of (t : datetime) : date := dt_date t.

(** Seconds since local midnight. *)
Definition seconds_of_day (t : datetime) : Z :=
  dt_hour t * 3600 + dt_minute t * 60 + dt_second t.

(** The instant on the UTC time line, in seconds: aware datetimes are
    compared and subtracted after removing their offsets. *)
Definition utc_seconds (t : datetime) : Z :=
  dt_date t * 86400 + seconds_of_day t - dt_utcoffset t * 60.

(** [a <= b] on aware datetimes. *)
Definition dt_le (a b : datetime) : Prop := utc_seconds a <= utc_seconds b.

Definition dt_leb (a b : datetime) : bool := utc_seconds a <=? utc_seconds b.

(** [end_time - start_time], a [timedelta], as its [total_seconds()]. *)
Definition dt_sub (end_time start_time : datetime) : Z :=
  utc_seconds end_time - utc_seconds start_time.

(** The wall clock one second later, in the same offset. *)
Definition next_second (t : datetime) : datetime :=
  let s := seconds_of_day t + 1 in
  if s <? 86400
  then mk_datetime (dt_date t) (s / 3600) (s mod 3600 / 60) (s mod 60)
                   (dt_utcoffset t)
  else mk_datetime (dt_date t + 1) 0 0 0 (dt_utcoffset t).

(** *** Rendering: [isoformat()] *)

Definition DAYS_IN_MONTH (month : Z) : Z :=
  match month with
  | 1 => 31 | 2 => 28 | 3 => 31 | 4 => 30 | 5 => 31 | 6 => 30
  | 7 => 31 | 8 => 31 | 9 => 30 | 10 => 31 | 11 => 30 | 12 => 31
  | _ => -1
  end.

Definition DAYS_BEFORE_MONTH (month : Z) : Z :=
  match month with
  | 1 => 0 | 2 => 31 | 3 => 59 | 4 => 90 | 5 => 120 | 6 => 151
  | 7 => 181 | 8 => 212 | 9 => 243 | 10 => 273 | 11 => 304 | 12 => 334
  | _ => -1
  end.

Definition Z_of_bool (b : bool) : Z := if b then 1 else 0.

(** [datetime._ord2ymd]: ordinal to (year, month, day). *)
Definition ord2ymd (ordinal : Z) : Z * Z * Z :=
  let n := ordinal - 1 in
  let n400 := n / 146097 in
  let n := n mod 146097 in
  let year := n400 * 400 + 1 in
  let n100 := n / 36524 in
  let n := n mod 36524 in
  let n4 := n / 1461 in
  let n := n mod 1461 in
  let n1 := n / 365 in
  let n := n mod 365 in
  let year := year + n100 * 100 + n4 * 4 + n1 in
  if (n1 =? 4) || (n100 =? 4) then (year - 1, 12, 31)
  else
    let leapyear := (n1 =? 3) && (negb (n4 =? 24) || (n100 =? 3)) in
    let month := Z.shiftr (n + 50) 5 in
    let preceding :=
      DAYS_BEFORE_MONTH month + Z_of_bool ((2 <? month) && leapyear) in
    if n <? preceding
    then
      let month := month - 1 in
      let preceding :=
        preceding
        - (DAYS_IN_MONTH month + Z_of_bool ((month =? 2) && leapyear)) in
      (year, month, n - preceding + 1)
    else (year, month, n - preceding + 1).

(** The format specification [02] (and [04]) applied to an integer:
    zero padding up to the width, a minus sign counted in the width. *)
Definition zero_pad (width : nat) (n : Z) : string :=
  let digits := pretty (Z.abs n) in
  let sign := if n <? 0 then "-"%string else ""%string in
  let fill := (width - String.length sign - String.length digits)%nat in
  (sign +:+ String.concat "" (replicate fill "0"%string) +:+ digits)%string.

(** [t.isoformat()] for an aware datetime without microseconds and with
    an offset of whole minutes: [YYYY-MM-DDTHH:MM:SS+HH:MM]. *)
Definition isoformat (t : datetime) : string :=
  let '(y, m, d) := ord2ymd (dt_date t) in
  let off := dt_utcoffset t in
  let sign := if off <? 0 then "-"%string else "+"%string in
  (zero_pad 4 y +:+ "-" +:+ zero_pad 2 m +:+ "-" +:+ zero_pad 2 d
   +:+ "T" +:+ zero_pad 2 (dt_hour t) +:+ ":" +:+ zero_pad 2 (dt_minute t)
   +:+ ":" +:+ zero_pad 2 (dt_second t)
   +:+ sign +:+ zero_pad 2 (Z.abs off / 60) +:+ ":"
   +:+ zero_pad 2 (Z.abs off mod 60))%string.

End Calendar.

Import Calendar.

(** ** Outcomes of a run *)

(** What a function of the script can do besides returning: leave through
    [sys.exit(code)], or let an exception escape. *)
Inductive outcome (A : Type) : Type :=
| Returned (value : A)
| SysExit (code : Z)
| Raised (exception : string).

Arguments Returned {A} value.
Arguments SysExit {A} code.
Arguments Raised {A} exception.

(** ** [parse_arguments]: the date range (lines 69-84) *)

(** The value of a date option after [argparse]: not given (or the empty
    string, which is falsy as well), a string that [strptime] parses as
    [%Y-%m-%d], or a string on which [strptime] raises [ValueError]. *)
Inductive date_arg :=
| Absent
| Given (d : date)
| Malformed.

(** [d - datetime.timedelta(days=n)]. *)
Definition date_minus_days (d : date) (n : Z) : outcome date :=
  if (n <? - MAX_DELTA_DAYS) || (MAX_DELTA_DAYS <? n)
  then Raised "OverflowError"
  else
    let r := d - n in
    if (MINORDINAL <=? r) && (r <=? MAXORDINAL) then Returned r
    else Raised "OverflowError".

Record date_range := {
  start_date_dt : date;
  end_date_dt : date
}.

Definition parse_arguments (today : date) (start_date end_date : date_arg)
    (days : Z) : outcome date_range :=
  let end_result :=
    match end_date with
    | Given d => Returned d
    | Malformed => Raised "ValueError"
    | Absent => Returned today
    end in
  match end_result with
  | Returned end_dt =>
      let start_result :=
        match start_date with
        | Given d => Returned d
        | Malformed => Raised "ValueError"
        | Absent => date_minus_days end_dt (days - 1)
        end in
      match start_result with
      | Returned start_dt =>
          if end_dt <? start_dt then SysExit 1
          else Returned {| start_date_dt := start_dt; end_date_dt := end_dt |}
      | SysExit c => SysExit c
      | Raised e => Raised e
      end
  | SysExit c => SysExit c
  | Raised e => Raised e
  end.

(** ** [format_duration] (lines 104-111) *)

(** The argument is [None] or a [timedelta], given by its whole number of
    seconds; [divmod] is the floored division of Python, as [/] and [mod]
    on [Z] are for the positive divisors used here. *)
Definition format_duration (td : option Z) : string :=
  match td with
  | None => "N/A"
  | Some total_seconds =>
      let hours := total_seconds / 3600 in
      let remainder := total_seconds mod 3600 in
      let minutes := remainder / 60 in
      let seconds := remainder mod 60 in
      zero_pad 2 hours +:+ ":" +:+ zero_pad 2 minutes +:+ ":"
      +:+ zero_pad 2 seconds
  end.

(** ** [load_peer_map] (lines 88-102) *)

(** The value stored under a name in the JSON peer map, as far as the
    loader looks at it: an object with a string [publicKey], an object
    without that member, or a value on which the membership test, the
    subscript or the hashing raises (a number, a string or list that
    mentions the word, an unhashable key). *)
Inductive details :=
| WithPublicKey (publicKey : string)
| WithoutPublicKey
| Unusable.

(** The peer map file: absent, not loadable as a JSON object, or the
    members of the object as the file writes them, in file order, a name
    possibly more than once. *)
Inductive map_file :=
| MapMissing
| MapUnloadable
| MapData (data : list (string * details)).

(** [d[name] = v] on a dictionary kept in insertion order: a name that is
    there keeps its place and takes the new value, a new name goes to the
    end. *)
Fixpoint dict_set (d : list (string * details)) (name : string)
    (v : details) : list (string * details) :=
  match d with
  | [] => [(name, v)]
  | (n, old) :: rest =>
      if bool_decide (n = name) then (n, v) :: rest
      else (n, old) :: dict_set rest name v
  end.

(** The dictionary that [json.load] (line 96) makes of the members: of a
    repeated name the first place and the last value remain. *)
Definition json_object (members : list (string * details))
    : list (string * details) :=
  foldl (fun d m => dict_set d m.1 m.2) [] members.

(** The body of the [for name, details in data.items()] loop; the first
    exception leaves the loop through the enclosing [except], with the map
    as filled so far. *)
Fixpoint fill_peer_map (peer_map : gmap string string)
    (data : list (string * details)) : gmap string string :=
  match data with
  | [] => peer_map
  | (name, WithPublicKey publicKey) :: rest =>
      fill_peer_map (<[publicKey := name]> peer_map) rest
  | (_, WithoutPublicKey) :: rest => fill_peer_map peer_map rest
  | (_, Unusable) :: _ => peer_map
  end.

Definition load_peer_map (f : map_file) : gmap string string :=
  match f with
  | MapMissing => ∅
  | MapUnloadable => ∅
  | MapData data => fill_peer_map ∅ (json_object data)
  end.

(** [peer_map.get(key, name_from_log)] (line 150). *)
Definition resolve_name (peer_map : gmap string string)
    (key name_from_log : string) : string :=
  default name_from_log (peer_map !! key).

(** ** Log lines and log entries *)

(** The groups of a line that [LOG_PATTERN] matches.  The timestamp group
    always has its colon at [[-3:-2]], so it goes to [fromisoformat]; the
    field holds the parsed value, or [None] when the call raises
    [ValueError] (month 13, say). *)
Record groups := {
  g_timestamp : option datetime;
  g_event : string;
  g_name_from_log : string;
  g_key : string;
  g_ip : string
}.

Inductive line :=
| Unmatched
| Matched (g : groups).

(** A discovered file: its path, the lines it yields, and whether reading
    it ends in an exception after these lines (with no line at all when
    [open] itself fails, with some when a compressed stream breaks off). *)
Record log_file := {
  path : string;
  lines : list line;
  read_fails : bool
}.

(** One element of [log_entries]. *)
Record entry := {
  timestamp : datetime;
  event : string;
  peer_key : string;
  peer_name : string;
  endpoint : string
}.

Record args := {
  user : string;
  range : date_range
}.

(** Characters are code points below 256; these are the ones for which
    [str.isspace()] holds, the separators of [str.split()]. *)
Definition isspace (c : Ascii.ascii) : bool :=
  let n := Z.of_nat (Ascii.nat_of_ascii c) in
  ((9 <=? n) && (n <=? 13)) || ((28 <=? n) && (n <=? 32))
  || (n =? 133) || (n =? 160).

Fixpoint lstrip (s : string) : string :=
  match s with
  | EmptyString => EmptyString
  | String c s' => if isspace c then lstrip s' else s
  end.

Fixpoint take_word (s : string) : string :=
  match s with
  | EmptyString => EmptyString
  | String c s' => if isspace c then EmptyString else String c (take_word s')
  end.

(** [s.split()[0]]: the first whitespace-delimited word, [None] standing
    for the [IndexError] on a string without any word. *)
Definition split_first (s : string) : option string :=
  match lstrip s with
  | EmptyString => None
  | w => Some (take_word w)
  end.

(** ** Diagnostics *)

(** The messages of [process_logs], in the order they are printed. *)
Inductive message :=
| Scanning_log_files
| Processing_file (file : string)
| Warning_skipping_line
| Warning_could_not_process_file (file : string)
| Error_no_log_files
| No_relevant_log_entries
| Sorting_entries (n : nat)
| Calculating_sessions
| Checking_for_ongoing_sessions
| Found_sessions (n : nat).

(** The messages that go to [sys.stderr]. *)
Definition on_stderr (m : message) : bool :=
  match m with
  | Warning_skipping_line | Warning_could_not_process_file _
  | Error_no_log_files => true
  | _ => false
  end.

(** ** Reading the files (lines 121-163) *)

(** What one line does to the loop over a file. *)
Inductive line_effect :=
| Skip                   (* no match, or a [continue] *)
| SkipWarn               (* the timestamp does not parse *)
| Append (e : entry)
| Abort.                 (* an exception leaves the [with] block *)

(** The test negated at line 146:
    [args.start_date_dt <= timestamp_dt.date() <= args.end_date_dt]. *)
Definition in_date_range (a : args) (timestamp_dt : datetime) : bool :=
  (start_date_dt (range a) <=? date_of timestamp_dt)
  && (date_of timestamp_dt <=? end_date_dt (range a)).

Definition process_line (a : args) (peer_map : gmap string string)
    (l : line) : line_effect :=
  match l with
  | Unmatched => Skip
  | Matched g =>
      match g_timestamp g with
      | None => SkipWarn
      | Some timestamp_dt =>
          if negb (in_date_range a timestamp_dt) then Skip
          else
            let peer_name := resolve_name peer_map (g_key g)
                                          (g_name_from_log g) in
            if negb (bool_decide (user a = "all"))
               && negb (bool_decide (peer_name = user a))
            then Skip
            else
              match split_first (g_event g) with
              | None => Abort
              | Some primary =>
                  Append {| timestamp := timestamp_dt;
                            event := primary;
                            peer_key := g_key g;
                            peer_name := peer_name;
                            endpoint := g_ip g |}
              end
      end
  end.

(** The loop state shared by all files. *)
Record reader := {
  log_entries : list entry;
  processed_files : nat;
  printed : list message
}.

Definition add_entry (e : entry) (r : reader) : reader :=
  {| log_entries := log_entries r ++ [e];
     processed_files := processed_files r;
     printed := printed r |}.

Definition print (m : message) (r : reader) : reader :=
  {| log_entries := log_entries r;
     processed_files := processed_files r;
     printed := printed r ++ [m] |}.

Definition count_file (r : reader) : reader :=
  {| log_entries := log_entries r;
     processed_files := S (processed_files r);
     printed := printed r |}.

(** [for line in f: ...]; the boolean tells whether the loop ran to the
    end of the lines without an exception. *)
Fixpoint read_lines (a : args) (peer_map : gmap string string)
    (ls : list line) (r : reader) : reader * bool :=
  match ls with
  | [] => (r, true)
  | l :: rest =>
      match process_line a peer_map l with
      | Skip => read_lines a peer_map rest r
      | SkipWarn => read_lines a peer_map rest (print Warning_skipping_line r)
      | Append e => read_lines a peer_map rest (add_entry e r)
      | Abort => (r, false)
      end
  end.

(** The [try] block for one file and its [except Exception]. *)
Definition read_file (a : args) (peer_map : gmap string string)
    (f : log_file) (r : reader) : reader :=
  let r := print (Processing_file (path f)) r in
  let '(r, finished) := read_lines a peer_map (lines f) r in
  if finished && negb (read_fails f)
  then count_file r
  else print (Warning_could_not_process_file (path f)) r.

Definition read_files (a : args) (peer_map : gmap string string)
    (files : list log_file) (r : reader) : reader :=
  foldl (fun r f => read_file a peer_map f r) r files.

(** ** Stable sorting *)

(** Insertion of [x] in front of the first element it may precede; with
    [x] coming before the elements of [l] in the input, equal keys keep
    their input order. *)
Fixpoint insert_sorted {A} (before : A -> A -> bool) (x : A) (l : list A)
    : list A :=
  match l with
  | [] => [x]
  | y :: l' =>
      if before x y then x :: y :: l' else y :: insert_sorted before x l'
  end.

Definition stable_sort {A} (before : A -> A -> bool) (l : list A) : list A :=
  foldr (insert_sorted before) [] l.

(** [sorted(log_files, reverse=True)]: descending paths. *)
Definition sorted_reverse (files : list log_file) : list log_file :=
  stable_sort (fun f g => String.leb (path g) (path f)) files.

(** [log_entries.sort(key=lambda x: x["timestamp"])] (line 174). *)
Definition sort_entries (l : list entry) : list entry :=
  stable_sort (fun x y => dt_leb (timestamp x) (timestamp y)) l.

(** ** The session state machine (lines 177-238) *)

Inductive status_t :=
| disconnected
| connected.

Global Instance status_eq_dec : EqDecision status_t.
Proof. solve_decision. Defined.

(** The value of [peer_states[key]]. *)
Record peer_state := {
  status : status_t;
  session_start_time : option datetime;
  session_start_ip : option string;
  current_name : string
}.

(** The factory of the [defaultdict]. *)
Definition default_state : peer_state :=
  {| status := disconnected;
     session_start_time := None;
     session_start_ip := None;
     current_name := "Unknown" |}.

(** A row of the report. *)
Record session := {
  PeerName : string;
  SessionStart : string;
  SessionEnd : string;
  Duration : string;
  EndpointIP : string
}.

(** What one [sessions.append] adds: the row, together with the locals
    [key], [start_time] and [end_time] at that place (the source keeps the
    key as the commented-out [_PeerKey] column).  [process_logs] returns
    the rows alone. *)
Record appended := {
  at_key : string;
  at_start_time : option datetime;
  at_end_time : option datetime;
  row : session
}.

(** [t.isoformat() if t else "N/A"]: a datetime is always truthy. *)
Definition isoformat_or_na (t : option datetime) : string :=
  match t with
  | Some t => isoformat t
  | None => "N/A"
  end.

(** [end_time - start_time if start_time and end_time else None]. *)
Definition duration_of (start_time end_time : option datetime) : option Z :=
  match start_time, end_time with
  | Some s, Some e => Some (dt_sub e s)
  | _, _ => None
  end.

(** [ip or "N/A"]: [None] and the empty string are falsy. *)
Definition ip_or_na (ip : option string) : string :=
  match ip with
  | None => "N/A"
  | Some EmptyString => "N/A"
  | Some s => s
  end.

(** The dictionary appended at lines 209-216. *)
Definition completed_row (state : peer_state) (end_time : datetime)
    : session :=
  let start_time := session_start_time state in
  {| PeerName := current_name state;
     SessionStart := isoformat_or_na start_time;
     SessionEnd := isoformat_or_na (Some end_time);
     Duration := format_duration (duration_of start_time (Some end_time));
     EndpointIP := ip_or_na (session_start_ip state) |}.

(** The dictionary appended at lines 231-238. *)
Definition ongoing_row (state : peer_state) (end_time : option datetime)
    : session :=
  let start_time := session_start_time state in
  {| PeerName := current_name state;
     SessionStart := isoformat_or_na start_time;
     SessionEnd := "Ongoing (as of " +:+ isoformat_or_na end_time +:+ ")";
     Duration := format_duration (duration_of start_time end_time)
                 +:+ " (up to last log)";
     EndpointIP := ip_or_na (session_start_ip state) |}.

Definition is_connect_event (e : entry) : bool :=
  bool_decide (event e = "CONNECT")
  || bool_decide (event e = "RECONNECT/UPDATE").

Definition is_disconnect_event (e : entry) : bool :=
  String.prefix "DISCONNECT" (event e).

Definition set_name (name : string) (state : peer_state) : peer_state :=
  {| status := status state;
     session_start_time := session_start_time state;
     session_start_ip := session_start_ip state;
     current_name := name |}.

(** Lines 186-188. *)
Definition adopt_name (state : peer_state) (e : entry) : peer_state :=
  if bool_decide (peer_name e = "Unknown") then state
  else set_name (peer_name e) state.

(** Lines 196-201. *)
Definition open_session (state : peer_state) (e : entry) : peer_state :=
  let state :=
    {| status := connected;
       session_start_time := Some (timestamp e);
       session_start_ip := Some (endpoint e);
       current_name := current_name state |} in
  if bool_decide (current_name state = "Unknown")
     && negb (bool_decide (peer_name e = "Unknown"))
  then set_name (peer_name e) state
  else state.

(** Lines 218-220. *)
Definition close_session (state : peer_state) : peer_state :=
  {| status := disconnected;
     session_start_time := None;
     session_start_ip := None;
     current_name := current_name state |}.

(** The body of the loop at lines 181-221 on the state of the entry's
    peer: the state it leaves and what it appends to [sessions]. *)
Definition transition (state : peer_state) (e : entry)
    : peer_state * list appended :=
  let state := adopt_name state e in
  if is_connect_event e then
    match status state with
    | disconnected => (open_session state e, [])
    | connected => (state, [])
    end
  else if is_disconnect_event e then
    match status state with
    | connected =>
        (close_session state,
         [ {| at_key := peer_key e;
              at_start_time := session_start_time state;
              at_end_time := Some (timestamp e);
              row := completed_row state (timestamp e) |} ])
    | disconnected => (state, [])
    end
  else (state, []).

(** [peer_states]: a dictionary iterates in the order its keys were first
    inserted, so it is kept as an association list in that order, one
    binding per key. *)
Abbreviation peer_states := (list (string * peer_state)).

Fixpoint ps_lookup (ps : peer_states) (key : string) : option peer_state :=
  match ps with
  | [] => None
  | (k, st) :: rest => if bool_decide (k = key) then Some st
                       else ps_lookup rest key
  end.

(** Assignments through [state], which aliases the value stored under
    [key]: the binding changes in place. *)
Fixpoint ps_store (ps : peer_states) (key : string) (st : peer_state)
    : peer_states :=
  match ps with
  | [] => []
  | (k, old) :: rest => if bool_decide (k = key) then (k, st) :: rest
                        else (k, old) :: ps_store rest key st
  end.

(** [peer_states[key]] on the [defaultdict]: a missing key is inserted
    with the default state. *)
Definition ps_getitem (ps : peer_states) (key : string)
    : peer_states * peer_state :=
  match ps_lookup ps key with
  | Some st => (ps, st)
  | None => (ps ++ [(key, default_state)], default_state)
  end.

(** One iteration of the loop at lines 181-221. *)
Definition step (ps : peer_states) (e : entry)
    : peer_states * list appended :=
  let key := peer_key e in
  let '(ps, state) := ps_getitem ps key in
  let '(state, out) := transition state e in
  (ps_store ps key state, out).

(** The loop at lines 181-221: the final states and the appended
    sessions, in order. *)
Fixpoint reconstruct (ps : peer_states) (entries : list entry)
    : peer_states * list appended :=
  match entries with
  | [] => (ps, [])
  | e :: rest =>
      let '(ps, out) := step ps e in
      let '(ps, outs) := reconstruct ps rest in
      (ps, out ++ outs)
  end.

(** The loop at lines 225-238. *)
Fixpoint ongoing_sessions (last_log_time : option datetime)
    (ps : peer_states) : list appended :=
  match ps with
  | [] => []
  | (key, state) :: rest =>
      match status state with
      | connected =>
          {| at_key := key;
             at_start_time := session_start_time state;
             at_end_time := last_log_time;
             row := ongoing_row state last_log_time |}
          :: ongoing_sessions last_log_time rest
      | disconnected => ongoing_sessions last_log_time rest
      end
  end.

(** [log_entries[-1]['timestamp'] if log_entries else None] (line 179). *)
Definition last_log_time (log_entries : list entry) : option datetime :=
  timestamp <$> last log_entries.

(** Lines 177-238 on the sorted entries. *)
Definition calculate_sessions (log_entries : list entry) : list appended :=
  let '(ps, sessions) := reconstruct [] log_entries in
  sessions ++ ongoing_sessions (last_log_time log_entries) ps.

(** ** [process_logs] (lines 113-241) *)

Definition process_logs (a : args) (peer_map : gmap string string)
    (log_files : list log_file) : outcome (list session) * list message :=
  let r := {| log_entries := []; processed_files := 0;
              printed := [Scanning_log_files] |} in
  let r := read_files a peer_map (sorted_reverse log_files) r in
  match processed_files r with
  | O => (SysExit 1, printed r ++ [Error_no_log_files])
  | S _ =>
      match log_entries r with
      | [] => (Returned [], printed r ++ [No_relevant_log_entries])
      | _ =>
          let sorted := sort_entries (log_entries r) in
          let sessions := calculate_sessions sorted in
          (Returned (row <$> sessions),
           printed r ++ [Sorting_entries (length (log_entries r));
                         Calculating_sessions;
                         Checking_for_ongoing_sessions;
                         Found_sessions (length sessions)])
      end
  end.

(** ** Views used in the statements *)

(** The state the loop sees for a key: the stored one, or the default
    that the [defaultdict] would insert. *)
Definition peer_view (ps : peer_states) (key : string) : peer_state :=
  default default_state (ps_lookup ps key).

(** The entries of one peer, in stream order. *)
Definition for_peer (key : string) (l : list entry) : list entry :=
  filter (fun e => peer_key e = key) l.

(** The appended sessions of one peer, in output order. *)
Definition sessions_of (key : string) (out : list appended) : list appended :=
  filter (fun s => at_key s = key) out.

Definition final_states (l : list entry) : peer_states :=
  fst (reconstruct [] l).

Definition completed_sessions (l : list entry) : list appended :=
  snd (reconstruct [] l).

(** The state machine of a single peer, run on that peer's entries. *)
Fixpoint run_peer (state : peer_state) (p : list entry)
    : peer_state * list appended :=
  match p with
  | [] => (state, [])
  | e :: rest =>
      let '(state, out) := transition state e in
      let '(state, outs) := run_peer state rest in
      (state, out ++ outs)
  end.

(** The stream order that the sort establishes. *)
Definition chronological (l : list entry) : Prop :=
  StronglySorted (fun x y => dt_le (timestamp x) (timestamp y)) l.

(** Order between two time cells that are both present. *)
Definition known_le (a b : option datetime) : Prop :=
  match a, b with
  | Some x, Some y => dt_le x y
  | _, _ => False
  end.

(** The start and end cells of a list of sessions, one after another. *)
Definition timeline (out : list appended) : list (option datetime) :=
  flat_map (fun s => [at_start_time s; at_end_time s]) out.

(** The invariant of the stored states: a connected peer has its start
    fields set. *)
Definition start_recorded (state : peer_state) : Prop :=
  status state = connected ->
  is_Some (session_start_time state) /\ is_Some (session_start_ip state).


(** The start fields of a connected state are those of a connect entry
    among the entries that satisfy [P]. *)
Definition started_by (P : entry -> Prop) (st : peer_state) : Prop :=
  status st = connected ->
  exists c, P c /\ is_connect_event c = true
            /\ session_start_time st = Some (timestamp c)
            /\ session_start_ip st = Some (endpoint c).

(** The same for an appended session and its row. *)
Definition row_started_by (P : entry -> Prop) (s : appended) : Prop :=
  exists c, P c /\ is_connect_event c = true
            /\ at_start_time s = Some (timestamp c)
            /\ SessionStart (row s) = isoformat (timestamp c)
            /\ EndpointIP (row s) = ip_or_na (Some (endpoint c)).

(** The start cell of the session that the final pass appends for a
    state, if any. *)
Definition open_start (st : peer_state) : list (option datetime) :=
  match status st with
  | connected => [session_start_time st]
  | disconnected => []
  end.

(** The cells of [run_peer st p]: completed sessions, then the open
    one. *)
Definition cells (st : peer_state) (p : list entry)
    : list (option datetime) :=
  timeline (snd (run_peer st p)) ++ open_start (fst (run_peer st p)).


Definition reader_empty : reader :=
  {| log_entries := []; processed_files := 0; printed := [] |}.


(** ** A small log, used to exercise the statements *)

Module Sample.

(** 2024-01-01 is day 738886. *)
Definition jan1 : date := 738886.

(** A time on the given day of January 2024, at UTC+08:00. *)
Definition jan (day h m s : Z) : datetime :=
  mk_datetime (jan1 + (day - 1)) h m s 480.

Definition entry_at (t : datetime) (ev key name ip : string) : entry :=
  {| timestamp := t; event := ev; peer_key := key; peer_name := name;
     endpoint := ip |}.

Definition c1 := entry_at (jan 1 10 0 0) "CONNECT" "K1" "Unknown" "198.51.100.7".
Definition d1 := entry_at (jan 1 11 2 3) "DISCONNECT" "K1" "Alice" "198.51.100.7".
Definition c2 := entry_at (jan 2 9 0 0) "CONNECT" "K2" "Bob" "203.0.113.9".
Definition r1 := entry_at (jan 2 12 0 0) "RECONNECT/UPDATE" "K1" "Alice" "198.51.100.8".
Definition d3 := entry_at (jan 2 13 0 0) "DISCONNECT" "K3" "Carol" "192.0.2.1".

Definition stream : list entry := [c1; d1; c2; r1; d3].

(** The completed session of K1 and the open session of K2 that the
    stream gives. *)
Definition session_K1 : appended :=
  {| at_key := "K1";
     at_start_time := Some (jan 1 10 0 0);
     at_end_time := Some (jan 1 11 2 3);
     row := {| PeerName := "Alice";
               SessionStart := "2024-01-01T10:00:00+08:00";
               SessionEnd := "2024-01-01T11:02:03+08:00";
               Duration := "01:02:03";
               EndpointIP := "198.51.100.7" |} |}.

Definition open_K2 : appended :=
  {| at_key := "K2";
     at_start_time := Some (jan 2 9 0 0);
     at_end_time := Some (jan 2 13 0 0);
     row := {| PeerName := "Bob";
               SessionStart := "2024-01-02T09:00:00+08:00";
               SessionEnd := "Ongoing (as of 2024-01-02T13:00:00+08:00)";
               Duration := "04:00:00 (up to last log)";
               EndpointIP := "203.0.113.9" |} |}.

Definition open_K1 : appended :=
  {| at_key := "K1";
     at_start_time := Some (jan 2 12 0 0);
     at_end_time := Some (jan 2 13 0 0);
     row := {| PeerName := "Alice";
               SessionStart := "2024-01-02T12:00:00+08:00";
               SessionEnd := "Ongoing (as of 2024-01-02T13:00:00+08:00)";
               Duration := "01:00:00 (up to last log)";
               EndpointIP := "198.51.100.8" |} |}.

Definition line_of (e : entry) : line :=
  Matched {| g_timestamp := Some (timestamp e); g_event := event e;
             g_name_from_log := peer_name e; g_key := peer_key e;
             g_ip := endpoint e |}.

Definition good_file : log_file :=
  {| path := "wireguard-connections.log";
     lines := [line_of c1; Unmatched; line_of d1; line_of c2];
     read_fails := false |}.

(** A rotated file whose compressed stream breaks off after one line. *)
Definition broken_file : log_file :=
  {| path := "wireguard-connections.log.1.gz";
     lines := [line_of d3];
     read_fails := true |}.

Definition all_january : args :=
  {| user := "all";
     range := {| start_date_dt := jan1; end_date_dt := jan1 + 30 |} |}.

End Sample.

(** ** [write_csv_report] (lines 243-260) *)






(** ** [main] (lines 262-267) *)





(** ** Further views *)

Definition is_matched (l : line) : bool :=
  match l with
  | Unmatched => false
  | Matched _ => true
  end.

(** The lines of a file without those the pattern does not match. *)
Definition matched_lines (f : log_file) : log_file :=
  {| path := path f;
     lines := filter (fun l => is_matched l = true) (lines f);
     read_fails := read_fails f |}.

(** The entries of a stream at one instant. *)
Definition at_instant (c : Z) (l : list entry) : list entry :=
  filter (fun e => utc_seconds (timestamp e) = c) l.

(** A word: not empty, no whitespace in it. *)
Fixpoint no_space (s : string) : bool :=
  match s with
  | EmptyString => true
  | String c s' => negb (isspace c) && no_space s'
  end.

Definition is_word (s : string) : Prop := s <> "" /\ no_space s = true.

(** The name the loader leaves for a key: that of the last member with
    this key, up to the first member that stops the loop. *)
Fixpoint last_name_for (key : string) (data : list (string * details))
    (found : option string) : option string :=
  match data with
  | [] => found
  | (name, WithPublicKey k) :: rest =>
      last_name_for key rest (if bool_decide (k = key) then Some name
                              else found)
  | (_, WithoutPublicKey) :: rest => last_name_for key rest found
  | (_, Unusable) :: _ => found
  end.

(** The duration cell of an appended session, as its start and end cells
    give it. *)
Definition duration_cell (s : appended) : string :=
  format_duration (duration_of (at_start_time s) (at_end_time s)).

(** Descending order of the paths. *)
Definition path_ge (f g : log_file) : Prop :=
  String.leb (path g) (path f) = true.

Definition has_timestamp (l : line) : bool :=
  match l with
  | Unmatched => true
  | Matched g => match g_timestamp g with Some _ => true | None => false end
  end.

(** The lines of a file without those whose timestamp does not parse. *)
Definition parsed_lines (f : log_file) : log_file :=
  {| path := path f;
     lines := filter (fun l => has_timestamp l = true) (lines f);
     read_fails := read_fails f |}.

(** Two readings that differ at most in what was printed. *)
Definition same_reading (r1 r2 : reader) : Prop :=
  log_entries r1 = log_entries r2
  /\ processed_files r1 = processed_files r2.

(** Two states that differ at most in the stored name. *)
Definition same_session (st1 st2 : peer_state) : Prop :=
  status st1 = status st2
  /\ session_start_time st1 = session_start_time st2
  /\ session_start_ip st1 = session_start_ip st2.

(** Where a session starts and ends, and the endpoint it reports. *)
Definition boundaries (s : appended)
    : option datetime * option datetime * string :=
  (at_start_time s, at_end_time s, EndpointIP (row s)).

(** ** A whole run, used to exercise the statements *)

Module Demo.

(** The stream of [Sample] without the entry of K2. *)
Definition without_K2 : list entry :=
  [Sample.c1; Sample.d1; Sample.r1; Sample.d3].

(** K1 connects, roams twice, and is reported lost twice. *)
Definition roam : entry :=
  Sample.entry_at (Sample.jan 1 10 30 0) "RECONNECT/UPDATE" "K1" "Alice"
                  "198.51.100.99".

Definition lost_again : entry :=
  Sample.entry_at (Sample.jan 1 11 5 0) "DISCONNECT" "K1" "Alice"
                  "198.51.100.99".

Definition burst : list entry :=
  [Sample.c1; roam; Sample.c2; Sample.d1; lost_again].

(** Two peers, one session each. *)
Definition d2 : entry :=
  Sample.entry_at (Sample.jan 2 10 0 0) "DISCONNECT" "K2" "Bob"
                  "203.0.113.9".

Definition two_sessions : list entry :=
  [Sample.c1; Sample.d1; Sample.c2; d2].








End Demo.

(** * Properties *)

(** ** The association list behaves as a dictionary *)

Section PeerStates.

Implicit Types (ps : peer_states) (k key : string) (st : peer_state).

Lemma ps_lookup_app ps k st key :
  ps_lookup (ps ++ [(k, st)]) key =
  match ps_lookup ps key with
  | Some s => Some s
  | None => if bool_decide (k = key) then Some st else None
  end.
Proof.
  induction ps as [|[k' s'] ps IH]; simpl; [done|].
  destruct (bool_decide_reflect (k' = key)); [done | apply IH].
Qed.

Lemma ps_lookup_store_eq ps key st :
  ps_lookup (ps_store ps key st) key = const st <$> ps_lookup ps key.
Proof.
  induction ps as [|[k' s'] ps IH]; simpl; [done|].
  destruct (bool_decide_reflect (k' = key)) as [Hk|Hk]; simpl.
  - rewrite bool_decide_true; done.
  - rewrite bool_decide_false; done.
Qed.

Lemma ps_lookup_store_ne ps key k st :
  key <> k -> ps_lookup (ps_store ps key st) k = ps_lookup ps k.
Proof.
  intros Hne. induction ps as [|[k' s'] ps IH]; simpl; [done|].
  destruct (bool_decide_reflect (k' = key)) as [Hk|Hk]; simpl.
  - subst k'. rewrite !bool_decide_false; done.
  - destruct (bool_decide_reflect (k' = k)); done.
Qed.

Lemma ps_store_keys ps key st : (ps_store ps key st).*1 = ps.*1.
Proof.
  induction ps as [|[k' s'] ps IH]; simpl; [done|].
  destruct (bool_decide_reflect (k' = key)); simpl; [done|].
  f_equal. apply IH.
Qed.

Lemma ps_lookup_None ps key : ps_lookup ps key = None <-> key ∉ ps.*1.
Proof.
  induction ps as [|[k' s'] ps IH]; simpl.
  - split; [intros _; apply not_elem_of_nil | done].
  - rewrite not_elem_of_cons.
    destruct (bool_decide_reflect (k' = key)) as [Hk|Hk].
    + split; [done | intros [? _]; congruence].
    + rewrite IH. split; [intros ?; split; [congruence | done] | tauto].
Qed.

Lemma ps_getitem_lookup ps key :
  ps_lookup (fst (ps_getitem ps key)) key = Some (peer_view ps key)
  /\ snd (ps_getitem ps key) = peer_view ps key.
Proof.
  unfold ps_getitem, peer_view.
  destruct (ps_lookup ps key) as [st|] eqn:Hl; simpl; [by rewrite Hl|].
  rewrite ps_lookup_app, Hl, bool_decide_true; done.
Qed.

Lemma ps_getitem_lookup_ne ps key k :
  key <> k -> ps_lookup (fst (ps_getitem ps key)) k = ps_lookup ps k.
Proof.
  intros Hne. unfold ps_getitem.
  destruct (ps_lookup ps key) as [st|] eqn:Hl; simpl; [done|].
  rewrite ps_lookup_app, bool_decide_false by done.
  by destruct (ps_lookup ps k).
Qed.

Lemma ps_getitem_NoDup ps key :
  NoDup ps.*1 -> NoDup (fst (ps_getitem ps key)).*1.
Proof.
  intros Hnd. unfold ps_getitem.
  destruct (ps_lookup ps key) as [st|] eqn:Hl; simpl; [done|].
  rewrite fmap_app. simpl. apply NoDup_app. split; [done|].
  split; [|apply NoDup_singleton].
  intros x Hx ->%list_elem_of_singleton.
  by apply ps_lookup_None in Hl.
Qed.

End PeerStates.

(** ** The loop, peer by peer *)

Section Reconstruction.

Implicit Types (ps : peer_states) (k key : string) (st : peer_state).
Implicit Types (e : entry) (l p : list entry).

Lemma transition_at_key st e :
  Forall (fun s => at_key s = peer_key e) (snd (transition st e)).
Proof.
  unfold transition.
  destruct (is_connect_event e), (is_disconnect_event e),
    (status (adopt_name st e)); simpl; repeat constructor.
Qed.

Lemma step_same ps e :
  ps_lookup (fst (step ps e)) (peer_key e)
  = Some (fst (transition (peer_view ps (peer_key e)) e))
  /\ snd (step ps e) = snd (transition (peer_view ps (peer_key e)) e).
Proof.
  unfold step.
  destruct (ps_getitem_lookup ps (peer_key e)) as [H1 H2].
  destruct (ps_getitem ps (peer_key e)) as [ps1 st]. simpl in H1, H2.
  subst st.
  destruct (transition (peer_view ps (peer_key e)) e) as [st' out]. simpl.
  split; [|done]. by rewrite ps_lookup_store_eq, H1.
Qed.

Lemma step_other ps e k :
  peer_key e <> k -> ps_lookup (fst (step ps e)) k = ps_lookup ps k.
Proof.
  intros Hne. unfold step.
  pose proof (ps_getitem_lookup_ne ps (peer_key e) k Hne) as H1.
  destruct (ps_getitem ps (peer_key e)) as [ps1 st]. simpl in H1.
  destruct (transition st e) as [st' out]. simpl.
  by rewrite ps_lookup_store_ne.
Qed.

Lemma step_view_same ps e :
  peer_view (fst (step ps e)) (peer_key e)
  = fst (transition (peer_view ps (peer_key e)) e).
Proof.
  destruct (step_same ps e) as [Hsame _].
  unfold peer_view at 1. by rewrite Hsame.
Qed.

Lemma step_view_other ps e k :
  peer_key e <> k -> peer_view (fst (step ps e)) k = peer_view ps k.
Proof. intros Hne. unfold peer_view. by rewrite step_other. Qed.

Lemma step_NoDup ps e : NoDup ps.*1 -> NoDup (fst (step ps e)).*1.
Proof.
  intros Hnd. unfold step.
  pose proof (ps_getitem_NoDup ps (peer_key e) Hnd) as H1.
  destruct (ps_getitem ps (peer_key e)) as [ps1 st]. simpl in H1.
  destruct (transition st e) as [st' out]. simpl.
  by rewrite ps_store_keys.
Qed.

Lemma reconstruct_NoDup l ps :
  NoDup ps.*1 -> NoDup (fst (reconstruct ps l)).*1.
Proof.
  revert ps. induction l as [|e l IH]; intros ps Hnd; simpl; [done|].
  pose proof (step_NoDup ps e Hnd) as H1.
  destruct (step ps e) as [ps1 out]. simpl in H1.
  specialize (IH ps1 H1).
  by destruct (reconstruct ps1 l) as [ps2 outs].
Qed.

Lemma reconstruct_app l1 l2 ps :
  reconstruct ps (l1 ++ l2) =
  let '(ps1, out1) := reconstruct ps l1 in
  let '(ps2, out2) := reconstruct ps1 l2 in
  (ps2, out1 ++ out2).
Proof.
  revert ps. induction l1 as [|e l1 IH]; intros ps; simpl.
  - by destruct (reconstruct ps l2).
  - destruct (step ps e) as [ps1 out]. rewrite IH.
    destruct (reconstruct ps1 l1) as [ps2 out1].
    destruct (reconstruct ps2 l2) as [ps3 out2].
    by rewrite app_assoc.
Qed.

(** What the loop does to one peer is what that peer's own machine does
    on that peer's entries. *)
Lemma reconstruct_peer k l ps :
  peer_view (fst (reconstruct ps l)) k
  = fst (run_peer (peer_view ps k) (for_peer k l))
  /\ sessions_of k (snd (reconstruct ps l))
     = snd (run_peer (peer_view ps k) (for_peer k l)).
Proof.
  revert ps. induction l as [|e l IH]; intros ps; simpl; [done|].
  destruct (step_same ps e) as [Hsame Hout].
  pose proof (step_other ps e k) as Hother.
  pose proof (transition_at_key (peer_view ps (peer_key e)) e) as Hkeys.
  destruct (step ps e) as [ps1 out]. simpl in Hsame, Hout, Hother.
  destruct (IH ps1) as [IH1 IH2].
  destruct (reconstruct ps1 l) as [ps2 outs]. simpl in IH1, IH2 |- *.
  unfold for_peer, sessions_of in *. rewrite filter_cons, filter_app.
  destruct (decide (peer_key e = k)) as [<-|Hne]; simpl.
  - assert (peer_view ps1 (peer_key e)
            = fst (transition (peer_view ps (peer_key e)) e)) as Hv
      by (unfold peer_view at 1; by rewrite Hsame).
    rewrite Hv in IH1, IH2. subst out.
    destruct (transition (peer_view ps (peer_key e)) e) as [st' out'].
    simpl in *.
    destruct (run_peer st' (filter (fun e0 => peer_key e0 = peer_key e) l))
      as [st'' outs']. simpl in *.
    split; [done|]. f_equal; [|done].
    clear -Hkeys. induction Hkeys as [|s o Hs Ho IHo]; [done|].
    rewrite filter_cons, decide_True by done. by f_equal.
  - assert (peer_view ps1 k = peer_view ps k) as Hv
      by (unfold peer_view; by rewrite Hother).
    rewrite Hv in IH1, IH2. split; [done|].
    rewrite <- IH2. subst out.
    replace (filter (fun s => at_key s = k)
               (snd (transition (peer_view ps (peer_key e)) e)))
      with (@nil appended); [done|].
    clear -Hkeys Hne. induction Hkeys as [|s o Hs Ho IHo]; [done|].
    rewrite filter_cons, decide_False by congruence. done.
Qed.

Lemma ongoing_sessions_absent t ps k :
  k ∉ ps.*1 -> sessions_of k (ongoing_sessions t ps) = [].
Proof.
  induction ps as [|[k' st] ps IH]; simpl; [done|].
  rewrite not_elem_of_cons. intros [Hne Hk]. specialize (IH Hk).
  destruct (status st); [done|].
  unfold sessions_of in *. rewrite filter_cons, decide_False; done.
Qed.

(** The final pass appends one session for a connected peer and none
    for a disconnected one. *)
Lemma ongoing_sessions_peer t ps k :
  NoDup ps.*1 ->
  sessions_of k (ongoing_sessions t ps) =
  match status (peer_view ps k) with
  | connected =>
      [ {| at_key := k;
           at_start_time := session_start_time (peer_view ps k);
           at_end_time := t;
           row := ongoing_row (peer_view ps k) t |} ]
  | disconnected => []
  end.
Proof.
  induction ps as [|[k' st] ps IH]; simpl; [done|].
  intros [Hk' Hnd]%NoDup_cons. specialize (IH Hnd).
  unfold peer_view in *. simpl.
  destruct (bool_decide_reflect (k' = k)) as [->|Hne]; simpl.
  - pose proof (ongoing_sessions_absent t ps k Hk') as Habs.
    unfold sessions_of in *.
    destruct (status st); [done|].
    rewrite filter_cons, decide_True by done. by rewrite Habs.
  - unfold sessions_of in *. destruct (status st); [done|].
    rewrite filter_cons, decide_False; done.
Qed.

End Reconstruction.

(** ** The machine of one peer *)

Section Machine.

Implicit Types (st : peer_state) (e c d : entry) (p : list entry).

Lemma disconnect_not_connect e :
  is_disconnect_event e = true -> is_connect_event e = false.
Proof.
  unfold is_disconnect_event, is_connect_event. intros Hd.
  destruct (bool_decide_reflect (event e = "CONNECT")) as [Hc|_];
    [by rewrite Hc in Hd|].
  destruct (bool_decide_reflect (event e = "RECONNECT/UPDATE")) as [Hc|_];
    [by rewrite Hc in Hd | done].
Qed.

Lemma adopt_name_status st e : status (adopt_name st e) = status st.
Proof. unfold adopt_name. by destruct (bool_decide _). Qed.

Lemma adopt_name_start_time st e :
  session_start_time (adopt_name st e) = session_start_time st.
Proof. unfold adopt_name. by destruct (bool_decide _). Qed.

Lemma adopt_name_start_ip st e :
  session_start_ip (adopt_name st e) = session_start_ip st.
Proof. unfold adopt_name. by destruct (bool_decide _). Qed.

Lemma open_session_fields st e :
  status (open_session st e) = connected
  /\ session_start_time (open_session st e) = Some (timestamp e)
  /\ session_start_ip (open_session st e) = Some (endpoint e).
Proof. unfold open_session. simpl. by destruct (_ && _). Qed.

(** The four rows of the transition table. *)
Lemma transition_open st e :
  is_connect_event e = true -> status st = disconnected ->
  transition st e = (open_session (adopt_name st e) e, []).
Proof.
  intros Hc Hs. unfold transition.
  by rewrite Hc, adopt_name_status, Hs.
Qed.

Lemma transition_reconnect st e :
  is_connect_event e = true -> status st = connected ->
  transition st e = (adopt_name st e, []).
Proof.
  intros Hc Hs. unfold transition.
  by rewrite Hc, adopt_name_status, Hs.
Qed.

Lemma transition_close st e :
  is_disconnect_event e = true -> status st = connected ->
  transition st e =
  (close_session (adopt_name st e),
   [ {| at_key := peer_key e;
        at_start_time := session_start_time st;
        at_end_time := Some (timestamp e);
        row := completed_row (adopt_name st e) (timestamp e) |} ]).
Proof.
  intros Hd Hs. unfold transition.
  by rewrite (disconnect_not_connect e Hd), Hd, adopt_name_status, Hs,
    adopt_name_start_time.
Qed.

Lemma transition_redundant st e :
  is_disconnect_event e = true -> status st = disconnected ->
  transition st e = (adopt_name st e, []).
Proof.
  intros Hd Hs. unfold transition.
  by rewrite (disconnect_not_connect e Hd), Hd, adopt_name_status, Hs.
Qed.

Lemma transition_other st e :
  is_connect_event e = false -> is_disconnect_event e = false ->
  transition st e = (adopt_name st e, []).
Proof. intros Hc Hd. unfold transition. by rewrite Hc, Hd. Qed.

Lemma run_peer_app p1 p2 st :
  run_peer st (p1 ++ p2) =
  let '(st1, out1) := run_peer st p1 in
  let '(st2, out2) := run_peer st1 p2 in
  (st2, out1 ++ out2).
Proof.
  revert st. induction p1 as [|e p1 IH]; intros st; simpl.
  - by destruct (run_peer st p2).
  - destruct (transition st e) as [st1 out]. rewrite IH.
    destruct (run_peer st1 p1) as [st2 out1].
    destruct (run_peer st2 p2) as [st3 out2].
    by rewrite app_assoc.
Qed.

(** Connect events alone never append a session. *)
Lemma run_peer_connects p st :
  Forall (fun c => is_connect_event c = true) p ->
  snd (run_peer st p) = [].
Proof.
  intros Hp. revert st. induction Hp as [|c p Hc Hp IH]; intros st;
    simpl; [done|].
  specialize (IH (fst (transition st c))).
  destruct (status st) eqn:Hs.
  - rewrite (transition_open st c Hc Hs) in *. simpl in *.
    by destruct (run_peer _ p).
  - rewrite (transition_reconnect st c Hc Hs) in *. simpl in *.
    by destruct (run_peer _ p).
Qed.

(** Start and end of the sessions of a stream of connect/disconnect
    pairs, from a disconnected peer. *)
Lemma run_peer_pairs (pairs : list (entry * entry)) p st :
  status st = disconnected ->
  Forall (fun cd => is_connect_event cd.1 = true
                    /\ is_disconnect_event cd.2 = true) pairs ->
  Forall (fun c => is_connect_event c = true) p ->
  (fun s => (at_start_time s, at_end_time s,
             SessionStart (row s), SessionEnd (row s)))
    <$> snd (run_peer st (flat_map (fun cd => [cd.1; cd.2]) pairs ++ p))
  = (fun cd => (Some (timestamp cd.1), Some (timestamp cd.2),
                isoformat (timestamp cd.1), isoformat (timestamp cd.2)))
    <$> pairs.
Proof.
  intros Hs Hpairs Hp. revert st Hs.
  induction Hpairs as [|[c d] pairs [Hc Hd] _ IH]; intros st Hs.
  - simpl. by rewrite run_peer_connects.
  - cbn [flat_map app fst snd run_peer] in *.
    rewrite (transition_open st c Hc Hs).
    destruct (open_session_fields (adopt_name st c) c) as (Ho1 & Ho2 & Ho3).
    rewrite (transition_close _ d Hd Ho1).
    specialize (IH (close_session (adopt_name (open_session (adopt_name st c) c) d))
                  eq_refl).
    destruct (run_peer _ _) as [st' outs]. simpl in *.
    rewrite adopt_name_start_time, Ho2. simpl. f_equal. exact IH.
Qed.

Lemma run_peer_connects_connected (p : list entry) (st : peer_state) :
  status st = connected ->
  Forall (fun c => is_connect_event c = true) p ->
  snd (run_peer st p) = []
  /\ status (fst (run_peer st p)) = connected
  /\ session_start_time (fst (run_peer st p)) = session_start_time st
  /\ session_start_ip (fst (run_peer st p)) = session_start_ip st.
Proof.
  intros Hs Hp. revert st Hs.
  induction Hp as [|c p Hc Hp IH]; intros st Hs; simpl; [done|].
  rewrite (transition_reconnect st c Hc Hs).
  destruct (IH (adopt_name st c)) as (H1 & H2 & H3 & H4).
  { by rewrite adopt_name_status. }
  destruct (run_peer (adopt_name st c) p) as [st' outs]. simpl in *.
  by rewrite H1, H2, H3, H4, adopt_name_start_time, adopt_name_start_ip.
Qed.

End Machine.

(** ** The stable sort *)

Section Sorting.

Context {A : Type} (before : A -> A -> bool) (R : A -> A -> Prop).
Hypothesis before_spec : forall x y, before x y = true <-> R x y.
Hypothesis R_total : forall x y, R x y \/ R y x.
Hypothesis R_trans : forall x y z, R x y -> R y z -> R x z.

Lemma insert_sorted_Permutation x (l : list A) :
  insert_sorted before x l ≡ₚ x :: l.
Proof.
  induction l as [|y l IH]; simpl; [done|].
  destruct (before x y); [done|]. rewrite IH. apply Permutation_swap.
Qed.

Lemma stable_sort_Permutation (l : list A) : stable_sort before l ≡ₚ l.
Proof.
  induction l as [|x l IH]; simpl; [done|].
  unfold stable_sort in *. simpl.
  rewrite insert_sorted_Permutation. by constructor.
Qed.

Lemma insert_sorted_sorted x (l : list A) :
  StronglySorted R l -> StronglySorted R (insert_sorted before x l).
Proof using before_spec R_total R_trans.
  induction 1 as [|y l Hl IH Hy]; simpl.
  - repeat constructor.
  - destruct (before x y) eqn:Hxy.
    + apply before_spec in Hxy. constructor; [by constructor|].
      constructor; [done|].
      eapply Forall_impl; [exact Hy|]. intros z Hz. by eapply R_trans.
    + constructor; [done|].
      rewrite insert_sorted_Permutation. constructor; [|done].
      destruct (R_total x y) as [Hx|Hx]; [|done].
      apply before_spec in Hx. congruence.
Qed.

Lemma stable_sort_sorted (l : list A) : StronglySorted R (stable_sort before l).
Proof using before_spec R_total R_trans.
  induction l as [|x l IH]; [constructor|].
  unfold stable_sort in *. simpl. by apply insert_sorted_sorted.
Qed.

End Sorting.

Lemma sort_entries_Permutation l : sort_entries l ≡ₚ l.
Proof. apply stable_sort_Permutation. Qed.

Lemma sort_entries_chronological l : chronological (sort_entries l).
Proof.
  apply stable_sort_sorted.
  - intros x y. unfold dt_leb, dt_le. apply Z.leb_le.
  - intros x y. unfold dt_le. lia.
  - intros x y z. unfold dt_le. lia.
Qed.

(** The last entry of a chronological stream carries its latest
    timestamp. *)
Lemma chronological_last l e_last :
  chronological l -> last l = Some e_last ->
  Forall (fun e => dt_le (timestamp e) (timestamp e_last)) l.
Proof.
  induction 1 as [|x l Hl IH Hx]; intros Hlast; [constructor|].
  destruct l as [|y l'].
  - simpl in Hlast. injection Hlast as <-. repeat constructor.
    unfold dt_le. lia.
  - assert (last (y :: l') = Some e_last) as Hlast' by exact Hlast.
    constructor; [|by apply IH].
    rewrite Forall_forall in Hx. apply Hx.
    apply last_Some_elem_of in Hlast'. done.
Qed.

(** ** Sessions that are still open at the end *)

Lemma ongoing_sessions_end t ps :
  Forall (fun s => at_end_time s = t
                   /\ SessionEnd (row s)
                      = "Ongoing (as of " +:+ isoformat_or_na t +:+ ")")
         (ongoing_sessions t ps).
Proof.
  induction ps as [|[k st] ps IH]; simpl; [constructor|].
  destruct (status st); [done|]. by constructor.
Qed.

Lemma final_states_NoDup l : NoDup (final_states l).*1.
Proof. apply reconstruct_NoDup. constructor. Qed.

Lemma calculate_sessions_split l :
  calculate_sessions l
  = completed_sessions l
    ++ ongoing_sessions (last_log_time l) (final_states l).
Proof.
  unfold calculate_sessions, completed_sessions, final_states.
  by destruct (reconstruct [] l).
Qed.

Lemma for_peer_Forall key l :
  Forall (fun e => e ∈ l /\ peer_key e = key) (for_peer key l).
Proof.
  apply Forall_forall. intros e He.
  unfold for_peer in He. by apply list_elem_of_filter in He as [? ?].
Qed.

(** A property of the appended sessions follows from an invariant of the
    state of each peer that the transitions keep and under which every
    session they append, and the open session of a connected state, has
    the property. *)
Lemma calculate_sessions_invariant (l : list entry)
    (I : string -> peer_state -> Prop) (Q : appended -> Prop) :
  (forall key, I key default_state) ->
  (forall st e,
      e ∈ l -> I (peer_key e) st ->
      I (peer_key e) (fst (transition st e))
      /\ Forall Q (snd (transition st e))) ->
  (forall key st t,
      I key st -> status st = connected ->
      Q {| at_key := key; at_start_time := session_start_time st;
           at_end_time := t; row := ongoing_row st t |}) ->
  forall s, s ∈ calculate_sessions l -> Q s.
Proof.
  intros Hinit Hstep Hopen s Hs. set (key := at_key s).
  assert (forall p st,
             Forall (fun e => e ∈ l /\ peer_key e = key) p -> I key st ->
             I key (fst (run_peer st p)) /\ Forall Q (snd (run_peer st p)))
    as Hrun.
  { induction p as [|e p IH]; intros st Hp Hst; simpl; [by split|].
    apply Forall_cons in Hp as [[He Hk] Hp].
    destruct (Hstep st e He) as [H1 H2]; [by rewrite Hk|].
    rewrite Hk in H1.
    destruct (transition st e) as [st1 out]. simpl in H1, H2.
    destruct (IH st1 Hp H1) as [H3 H4].
    destruct (run_peer st1 p) as [st2 outs]. simpl in *.
    split; [done|]. by apply Forall_app. }
  assert (s ∈ sessions_of key (calculate_sessions l)) as Hk
    by (unfold sessions_of; by apply list_elem_of_filter).
  rewrite calculate_sessions_split in Hk. unfold sessions_of in Hk.
  rewrite filter_app in Hk.
  destruct (reconstruct_peer key l []) as [Hview Hout].
  fold (final_states l) in Hview. fold (completed_sessions l) in Hout.
  destruct (Hrun (for_peer key l) (peer_view [] key)) as [Hfin Hall].
  { apply for_peer_Forall. }
  { apply Hinit. }
  rewrite <- Hview in Hfin. rewrite <- Hout in Hall.
  apply elem_of_app in Hk as [Hk|Hk].
  - rewrite Forall_forall in Hall. by apply Hall.
  - pose proof (ongoing_sessions_peer (last_log_time l) (final_states l)
                  key (final_states_NoDup l)) as Hong.
    unfold sessions_of in Hong. rewrite Hong in Hk.
    destruct (status (peer_view (final_states l) key)) eqn:Hst;
      [by apply elem_of_nil in Hk|].
    apply list_elem_of_singleton in Hk. rewrite Hk. by apply Hopen.
Qed.

(** ** Sessions of alternating connects and disconnects *)

(** After connect/disconnect pairs a disconnected peer is disconnected
    again. *)
Lemma run_peer_pairs_final (pairs : list (entry * entry)) (p : list entry)
    (st : peer_state) :
  status st = disconnected ->
  Forall (fun cd => is_connect_event cd.1 = true
                    /\ is_disconnect_event cd.2 = true) pairs ->
  exists st',
    status st' = disconnected
    /\ fst (run_peer st (flat_map (fun cd => [cd.1; cd.2]) pairs ++ p))
       = fst (run_peer st' p).
Proof.
  intros Hs Hpairs. revert st Hs.
  induction Hpairs as [|[c d] pairs [Hc Hd] _ IH]; intros st Hs.
  - by exists st.
  - cbn [flat_map app fst snd run_peer] in *.
    rewrite (transition_open st c Hc Hs).
    destruct (open_session_fields (adopt_name st c) c) as (Ho1 & _ & _).
    rewrite (transition_close _ d Hd Ho1).
    destruct (IH (close_session
                    (adopt_name (open_session (adopt_name st c) c) d))
                eq_refl) as (st' & Hst' & Heq).
    exists st'. split; [done|]. rewrite <- Heq.
    by destruct (run_peer _ _).
Qed.

(** [process_logs] exits with status 1 when no file could be read, and
    otherwise returns the rows of the reconstruction on the sorted entries
    it has read. *)
Lemma process_logs_outcome (a : args) (peer_map : gmap string string)
    (files : list log_file) :
  let r := read_files a peer_map (sorted_reverse files)
             {| log_entries := []; processed_files := 0;
                printed := [Scanning_log_files] |} in
  fst (process_logs a peer_map files)
  = match processed_files r with
    | O => SysExit 1
    | S _ => Returned (row <$> calculate_sessions
                                 (sort_entries (log_entries r)))
    end.
Proof.
  unfold process_logs. simpl.
  destruct (processed_files _); [done|].
  by destruct (log_entries _) as [|e es].
Qed.

(** C1.  Whatever the other peers do in between, when the entries of a
    peer are connect/disconnect pairs (followed, possibly, by connects
    that are not yet answered), the sessions that the reconstruction
    returns for that peer are exactly one completed session per pair, in
    order, which starts at the timestamp of the pair's connect and ends
    at the timestamp of its disconnect, followed by one open session from
    the first unanswered connect when there is one; the completed ones are
    those the loop appends, and [process_logs], unless it exits because
    no file could be read, returns the rows of the reconstruction on the
    sorted entries.  A connect for a peer that is
    connected appends nothing and leaves status, start time and start
    endpoint as they are.  The order of the timestamps plays no part in
    this. *)
Theorem C1_one_session_per_pair :
  (forall (key : string) (pairs : list (entry * entry))
          (unanswered l : list entry),
      Forall (fun cd => is_connect_event cd.1 = true
                        /\ is_disconnect_event cd.2 = true) pairs ->
      Forall (fun c => is_connect_event c = true) unanswered ->
      for_peer key l = flat_map (fun cd => [cd.1; cd.2]) pairs ++ unanswered ->
      (fun s => (at_start_time s, at_end_time s,
                 SessionStart (row s), SessionEnd (row s)))
        <$> sessions_of key (calculate_sessions l)
      = ((fun cd => (Some (timestamp cd.1), Some (timestamp cd.2),
                     isoformat (timestamp cd.1), isoformat (timestamp cd.2)))
           <$> pairs)
        ++ match unanswered with
           | [] => []
           | c :: _ =>
               [ (Some (timestamp c), timestamp <$> last l,
                  isoformat (timestamp c),
                  "Ongoing (as of "
                  +:+ isoformat_or_na (timestamp <$> last l) +:+ ")") ]
           end
      /\ (fun s => (at_start_time s, at_end_time s,
                    SessionStart (row s), SessionEnd (row s)))
           <$> sessions_of key (completed_sessions l)
         = (fun cd => (Some (timestamp cd.1), Some (timestamp cd.2),
                       isoformat (timestamp cd.1),
                       isoformat (timestamp cd.2)))
           <$> pairs)
  /\ (forall (a : args) (peer_map : gmap string string)
             (files : list log_file),
         let r := read_files a peer_map (sorted_reverse files)
                    {| log_entries := []; processed_files := 0;
                       printed := [Scanning_log_files] |} in
         fst (process_logs a peer_map files)
         = match processed_files r with
           | O => SysExit 1
           | S _ => Returned (row <$> calculate_sessions
                                        (sort_entries (log_entries r)))
           end)
  /\ (forall (ps : peer_states) (e : entry),
         is_connect_event e = true ->
         status (peer_view ps (peer_key e)) = connected ->
         let before := peer_view ps (peer_key e) in
         let after := peer_view (fst (step ps e)) (peer_key e) in
         snd (step ps e) = []
         /\ status after = connected
         /\ session_start_time after = session_start_time before
         /\ session_start_ip after = session_start_ip before).
Proof.
  split; [|split].
  - intros key pairs unanswered l Hpairs Hun Hl.
    destruct (reconstruct_peer key l []) as [Hview Hout].
    fold (final_states l) in Hview. fold (completed_sessions l) in Hout.
    rewrite Hl in Hview, Hout.
    assert ((fun s => (at_start_time s, at_end_time s,
                       SessionStart (row s), SessionEnd (row s)))
              <$> sessions_of key (completed_sessions l)
            = (fun cd => (Some (timestamp cd.1), Some (timestamp cd.2),
                          isoformat (timestamp cd.1),
                          isoformat (timestamp cd.2)))
              <$> pairs) as Hcompleted
      by (rewrite Hout; by apply run_peer_pairs).
    split; [|exact Hcompleted].
    rewrite calculate_sessions_split. unfold sessions_of in *.
    rewrite filter_app, fmap_app, Hcompleted. f_equal.
    pose proof (ongoing_sessions_peer (last_log_time l) (final_states l) key
                  (final_states_NoDup l)) as Hong.
    unfold sessions_of in Hong. rewrite Hong. clear Hong.
    destruct (run_peer_pairs_final pairs unanswered (peer_view [] key)
                eq_refl Hpairs) as (st' & Hst' & Hfinal).
    rewrite Hfinal in Hview. clear Hfinal.
    destruct unanswered as [|c cs].
    + simpl in Hview. by rewrite Hview, Hst'.
    + apply Forall_cons in Hun as [Hc Hcs]. cbn [run_peer] in Hview.
      rewrite (transition_open st' c Hc Hst') in Hview.
      destruct (open_session_fields (adopt_name st' c) c)
        as (Ho1 & Ho2 & _).
      destruct (run_peer_connects_connected cs _ Ho1 Hcs)
        as (_ & Hc2 & Hc3 & _).
      destruct (run_peer (open_session (adopt_name st' c) c) cs)
        as [st2 out2]. simpl in Hview, Hc2, Hc3.
      rewrite Hview, Hc2. simpl.
      by rewrite Hc3, Ho2.
  - apply process_logs_outcome.
  - intros ps e Hc Hs before after.
    destruct (step_same ps e) as [_ Hout].
    subst before after. rewrite step_view_same, Hout.
    rewrite (transition_reconnect _ e Hc Hs). simpl.
    by rewrite adopt_name_status, adopt_name_start_time, adopt_name_start_ip.
Qed.

Lemma C1_one_session_per_pair_witness :
  for_peer "K1" Sample.stream = [Sample.c1; Sample.d1; Sample.r1]
  /\ (fun s => (SessionStart (row s), SessionEnd (row s)))
       <$> sessions_of "K1" (calculate_sessions Sample.stream)
     = [("2024-01-01T10:00:00+08:00", "2024-01-01T11:02:03+08:00");
        ("2024-01-02T12:00:00+08:00",
         "Ongoing (as of 2024-01-02T13:00:00+08:00)")].
Proof.
  split; [reflexivity|].
  pose proof (proj1 C1_one_session_per_pair "K1"
                [(Sample.c1, Sample.d1)] [Sample.r1] Sample.stream) as H.
  assert (Forall (fun cd => is_connect_event cd.1 = true
                            /\ is_disconnect_event cd.2 = true)
            [(Sample.c1, Sample.d1)]) as H1
    by (repeat constructor).
  assert (Forall (fun c => is_connect_event c = true) [Sample.r1]) as H2
    by (repeat constructor).
  destruct (H H1 H2 eq_refl) as [Hall _].
  apply (f_equal (fmap (fun q => (q.1.2, q.2)))) in Hall.
  rewrite <- list_fmap_compose in Hall. exact Hall.
Defined.

Lemma transition_end_cell (st : peer_state) (e : entry) :
  Forall (fun s => at_end_time s = Some (timestamp e)
                   /\ SessionEnd (row s) = isoformat (timestamp e))
         (snd (transition st e)).
Proof.
  unfold transition.
  destruct (is_connect_event e), (is_disconnect_event e),
    (status (adopt_name st e)); simpl; repeat constructor.
Qed.

(** A session that the loop appends ends at the timestamp of an entry of
    the stream and says so in its end cell. *)
Lemma reconstruct_end_cells (l : list entry) (ps : peer_states) :
  Forall (fun s => exists e, e ∈ l /\ at_end_time s = Some (timestamp e)
                             /\ SessionEnd (row s) = isoformat (timestamp e))
         (snd (reconstruct ps l)).
Proof.
  revert ps. induction l as [|e l IH]; intros ps; simpl; [constructor|].
  destruct (step_same ps e) as [_ Hout].
  pose proof (transition_end_cell (peer_view ps (peer_key e)) e) as Hend.
  rewrite <- Hout in Hend.
  destruct (step ps e) as [ps1 out]. specialize (IH ps1).
  destruct (reconstruct ps1 l) as [ps2 outs]. simpl in *.
  apply Forall_app. split.
  - eapply Forall_impl; [exact Hend|]. intros s [H1 H2].
    exists e. split; [left | done].
  - eapply Forall_impl; [exact IH|]. intros s (e' & He' & H1 & H2).
    exists e'. split; [by right | done].
Qed.

(** C2.  With a non-empty stream, the sessions that the reconstruction
    returns for a peer key are the completed sessions of that key
    followed by exactly one open session when the peer's final status is
    connected, and by none otherwise.  The open session has as end time
    the timestamp of the last entry of the whole stream, the same for all
    peers, and its end cell is the marker that embeds that timestamp; a
    completed session ends at the timestamp of an entry and its end cell
    is that timestamp.  [process_logs], unless it exits because no file
    could be read, returns the rows of the reconstruction on the sorted
    entries, whose last entry is earlier than no other.  On the empty stream the reconstruction returns nothing,
    and [process_logs] returns no session at all (or exits) when no entry
    passed the filters. *)
Theorem C2_open_sessions_end_at_global_watermark :
  (forall (l : list entry) (e_last : entry) (key : string),
      last l = Some e_last ->
      let state := peer_view (final_states l) key in
      sessions_of key (calculate_sessions l)
      = sessions_of key (completed_sessions l)
        ++ match status state with
           | connected =>
               [ {| at_key := key;
                    at_start_time := session_start_time state;
                    at_end_time := Some (timestamp e_last);
                    row :=
                      {| PeerName := current_name state;
                         SessionStart :=
                           isoformat_or_na (session_start_time state);
                         SessionEnd :=
                           "Ongoing (as of "
                           +:+ isoformat (timestamp e_last) +:+ ")";
                         Duration :=
                           format_duration
                             (duration_of (session_start_time state)
                                          (Some (timestamp e_last)))
                           +:+ " (up to last log)";
                         EndpointIP :=
                           ip_or_na (session_start_ip state) |} |} ]
           | disconnected => []
           end)
  /\ (forall (l : list entry) (s : appended),
         s ∈ completed_sessions l ->
         exists e, e ∈ l /\ at_end_time s = Some (timestamp e)
                   /\ SessionEnd (row s) = isoformat (timestamp e))
  /\ (forall (a : args) (peer_map : gmap string string)
             (files : list log_file),
         let r := read_files a peer_map (sorted_reverse files)
                    {| log_entries := []; processed_files := 0;
                       printed := [Scanning_log_files] |} in
         fst (process_logs a peer_map files)
         = match processed_files r with
           | O => SysExit 1
           | S _ => Returned (row <$> calculate_sessions
                                        (sort_entries (log_entries r)))
           end)
  /\ (forall (l : list entry) (e_last : entry),
         last (sort_entries l) = Some e_last ->
         Forall (fun e => dt_le (timestamp e) (timestamp e_last)) l)
  /\ calculate_sessions [] = []
  /\ (forall (a : args) (peer_map : gmap string string)
             (files : list log_file),
         log_entries
           (read_files a peer_map (sorted_reverse files)
              {| log_entries := []; processed_files := 0;
                 printed := [Scanning_log_files] |}) = [] ->
         fst (process_logs a peer_map files) = Returned []
         \/ fst (process_logs a peer_map files) = SysExit 1).
Proof.
  split; [|split; [|split; [|split; [|split]]]].
  - intros l e_last key Hlast state. subst state.
    rewrite calculate_sessions_split. unfold sessions_of.
    rewrite filter_app. f_equal.
    pose proof (ongoing_sessions_peer (last_log_time l) (final_states l) key
                  (final_states_NoDup l)) as Hong.
    unfold sessions_of in Hong. rewrite Hong.
    unfold last_log_time. rewrite Hlast. simpl.
    by destruct (status (peer_view (final_states l) key)).
  - intros l s Hs.
    pose proof (reconstruct_end_cells l []) as Hall.
    rewrite Forall_forall in Hall. by apply Hall.
  - apply process_logs_outcome.
  - intros l e_last Hlast.
    pose proof (chronological_last _ _ (sort_entries_chronological l) Hlast)
      as H.
    by rewrite sort_entries_Permutation in H.
  - reflexivity.
  - intros a peer_map files Hnone. unfold process_logs.
    destruct (processed_files _); [by right|]. rewrite Hnone. by left.
Qed.

Lemma C2_open_sessions_end_at_global_watermark_witness :
  last Sample.stream = Some Sample.d3
  /\ sessions_of "K2" (calculate_sessions Sample.stream) = [Sample.open_K2]
  /\ at_end_time Sample.open_K2 = Some (timestamp Sample.d3).
Proof.
  split; [reflexivity|].
  pose proof (proj1 C2_open_sessions_end_at_global_watermark
                Sample.stream Sample.d3 "K2" eq_refl) as H.
  split; [|reflexivity].
  rewrite H. vm_compute. reflexivity.
Defined.

(** ** Display names *)

Lemma adopt_name_name st e :
  current_name (adopt_name st e)
  = if bool_decide (peer_name e = "Unknown") then current_name st
    else peer_name e.
Proof. unfold adopt_name. by destruct (bool_decide _). Qed.

(** The second adoption, at the start of a session, never fires: the
    first one has already taken every name that is not "Unknown". *)
Lemma open_session_name st e :
  current_name (open_session (adopt_name st e) e)
  = current_name (adopt_name st e).
Proof.
  unfold open_session. simpl. rewrite adopt_name_name.
  destruct (bool_decide_reflect (peer_name e = "Unknown")) as [Hu|Hu]; simpl.
  - by rewrite andb_false_r.
  - by rewrite (bool_decide_false _ Hu).
Qed.

Lemma transition_name st e :
  current_name (fst (transition st e)) = current_name (adopt_name st e).
Proof.
  unfold transition.
  destruct (is_connect_event e), (is_disconnect_event e),
    (status (adopt_name st e)); simpl; try done; apply open_session_name.
Qed.

Lemma run_peer_named p st :
  current_name st <> "Unknown" ->
  current_name (fst (run_peer st p)) <> "Unknown".
Proof.
  revert st. induction p as [|e p IH]; intros st Hn; simpl; [done|].
  assert (current_name (fst (transition st e)) <> "Unknown") as Hn'.
  { rewrite transition_name, adopt_name_name.
    by destruct (bool_decide_reflect (peer_name e = "Unknown")). }
  specialize (IH _ Hn').
  destruct (transition st e) as [st1 out]. simpl in IH.
  by destruct (run_peer st1 p) as [st2 outs].
Qed.

(** C5.  On every entry, whatever the status of its peer and the kind of
    the event, the stored name of the peer becomes the entry's resolved
    name when that name is not "Unknown" and stays as it is otherwise; a
    stored name other than "Unknown" never becomes "Unknown" again; and a
    connect that resolves to "Unknown" followed by a disconnect of the
    same key that resolves to "Alice" gives a single session, named
    "Alice". *)
Theorem C5_name_adoption :
  (forall (ps : peer_states) (e : entry),
      current_name (peer_view (fst (step ps e)) (peer_key e))
      = if bool_decide (peer_name e = "Unknown")
        then current_name (peer_view ps (peer_key e))
        else peer_name e)
  /\ (forall (l : list entry) (ps : peer_states) (key : string),
         current_name (peer_view ps key) <> "Unknown" ->
         current_name (peer_view (fst (reconstruct ps l)) key) <> "Unknown")
  /\ (forall (T1 T2 : datetime) (key ip1 ip2 : string),
         (PeerName ∘ row)
           <$> calculate_sessions
                 [ {| timestamp := T1; event := "CONNECT"; peer_key := key;
                      peer_name := "Unknown"; endpoint := ip1 |};
                   {| timestamp := T2; event := "DISCONNECT"; peer_key := key;
                      peer_name := "Alice"; endpoint := ip2 |} ]
         = ["Alice"]).
Proof.
  split; [|split].
  - intros ps e. rewrite step_view_same, transition_name.
    apply adopt_name_name.
  - intros l ps key Hn.
    destruct (reconstruct_peer key l ps) as [-> _].
    by apply run_peer_named.
  - intros T1 T2 key ip1 ip2.
    unfold calculate_sessions, reconstruct.
    unfold step, ps_getitem. simpl ps_lookup. cbv iota beta. simpl peer_key.
    rewrite transition_open by done.
    simpl ps_store. rewrite bool_decide_true by done.
    simpl ps_lookup. rewrite bool_decide_true by done. cbv iota beta.
    rewrite transition_close; [|done|apply open_session_fields].
    simpl ps_store. rewrite bool_decide_true by done.
    cbn -[isoformat format_duration]. reflexivity.
Qed.

Lemma C5_name_adoption_witness :
  current_name (peer_view [("K1", set_name "Alice" default_state)] "K1")
  <> "Unknown"
  /\ current_name
       (peer_view
          (fst (reconstruct [("K1", set_name "Alice" default_state)]
                  Sample.stream)) "K1")
     <> "Unknown".
Proof.
  split; [discriminate|].
  apply (proj1 (proj2 C5_name_adoption)). discriminate.
Defined.

(** ** Disconnects without a session *)

Lemma run_peer_disconnects p st :
  status st = disconnected ->
  Forall (fun d => is_disconnect_event d = true) p ->
  snd (run_peer st p) = []
  /\ status (fst (run_peer st p)) = disconnected
  /\ session_start_time (fst (run_peer st p)) = session_start_time st
  /\ session_start_ip (fst (run_peer st p)) = session_start_ip st.
Proof.
  intros Hs Hp. revert st Hs.
  induction Hp as [|d p Hd Hp IH]; intros st Hs; simpl; [done|].
  rewrite (transition_redundant st d Hd Hs).
  destruct (IH (adopt_name st d)) as (H1 & H2 & H3 & H4).
  { by rewrite adopt_name_status. }
  destruct (run_peer (adopt_name st d) p) as [st' outs]. simpl in *.
  by rewrite H1, H2, H3, H4, adopt_name_start_time, adopt_name_start_ip.
Qed.




(** ** Where the start fields of a session come from *)

Lemma started_by_adopt_name P st e :
  started_by P st -> started_by P (adopt_name st e).
Proof.
  unfold started_by.
  by rewrite adopt_name_status, adopt_name_start_time, adopt_name_start_ip.
Qed.

Lemma transition_started_by (P : entry -> Prop) st e :
  P e -> started_by P st ->
  started_by P (fst (transition st e))
  /\ Forall (row_started_by P) (snd (transition st e)).
Proof.
  intros HP Hst.
  destruct (is_connect_event e) eqn:Hc; [|destruct (is_disconnect_event e) eqn:Hd];
    (destruct (status st) eqn:Hs).
  - rewrite (transition_open st e Hc Hs). simpl. split; [|constructor].
    intros _. exists e.
    destruct (open_session_fields (adopt_name st e) e) as (_ & H2 & H3).
    by rewrite H2, H3.
  - rewrite (transition_reconnect st e Hc Hs). simpl. split; [|constructor].
    by apply started_by_adopt_name.
  - rewrite (transition_redundant st e Hd Hs). simpl. split; [|constructor].
    by apply started_by_adopt_name.
  - rewrite (transition_close st e Hd Hs). simpl. split; [done|].
    constructor; [|constructor].
    destruct (Hst Hs) as (c & HPc & Hcc & Ht & Hip).
    exists c. simpl. unfold isoformat_or_na.
    by rewrite adopt_name_start_time, adopt_name_start_ip, Ht, Hip.
  - rewrite (transition_other st e Hc Hd). simpl. split; [|constructor].
    by apply started_by_adopt_name.
  - rewrite (transition_other st e Hc Hd). simpl. split; [|constructor].
    by apply started_by_adopt_name.
Qed.

Lemma run_peer_started_by (P : entry -> Prop) p st :
  Forall P p -> started_by P st ->
  started_by P (fst (run_peer st p))
  /\ Forall (row_started_by P) (snd (run_peer st p)).
Proof.
  intros Hp. revert st. induction Hp as [|e p He Hp IH]; intros st Hst; simpl.
  - by split.
  - destruct (transition_started_by P st e He Hst) as [H1 H2].
    destruct (transition st e) as [st1 out]. simpl in H1, H2.
    destruct (IH st1 H1) as [H3 H4].
    destruct (run_peer st1 p) as [st2 outs]. simpl in *.
    split; [done|]. by apply Forall_app.
Qed.

(** Every session that the reconstruction appends for a key was started
    by a connect entry of that key in the stream. *)
Lemma calculate_sessions_started_by l s :
  s ∈ calculate_sessions l ->
  row_started_by (fun e => e ∈ l /\ peer_key e = at_key s) s.
Proof.
  revert s.
  apply (calculate_sessions_invariant l
           (fun key st => started_by (fun e => e ∈ l /\ peer_key e = key) st)
           (fun s => row_started_by
                       (fun e => e ∈ l /\ peer_key e = at_key s) s)).
  - intros key Hc. discriminate Hc.
  - intros st e He Hst.
    destruct (transition_started_by
                (fun e' => e' ∈ l /\ peer_key e' = peer_key e) st e)
      as [H1 H2]; [done|done|].
    split; [done|].
    pose proof (transition_at_key st e) as Hkeys.
    apply Forall_forall. intros s Hs.
    rewrite Forall_forall in H2, Hkeys.
    rewrite (Hkeys s Hs). by apply H2.
  - intros key st t Hst Hc.
    destruct (Hst Hc) as (c & HPc & Hcc & Ht & Hip).
    exists c. simpl. unfold isoformat_or_na. by rewrite Ht, Hip.
Qed.

(** C9.  After any number of entries of any stream, a peer whose status
    is connected has its start time and its start endpoint set.  Every
    session in the output, completed or open, was started by a connect
    entry of its key in the stream: its start time is that entry's
    timestamp, its start cell is the rendering of that timestamp, not
    "N/A", and its endpoint cell is that entry's endpoint, which is not
    empty for an entry made from a line of the log pattern ([\S+] matches
    at least one character), so the endpoint cell is not the "N/A"
    fallback either. *)
Theorem C9_connected_has_start_fields :
  (forall (l : list entry) (n : nat) (key : string),
      start_recorded (peer_view (final_states (take n l)) key))
  /\ (forall (l : list entry) (s : appended),
         s ∈ calculate_sessions l ->
         exists c,
           c ∈ l /\ peer_key c = at_key s /\ is_connect_event c = true
           /\ at_start_time s = Some (timestamp c)
           /\ SessionStart (row s) = isoformat (timestamp c)
           /\ (endpoint c <> "" -> EndpointIP (row s) = endpoint c))
  /\ (forall (a : args) (peer_map : gmap string string) (g : groups)
             (e : entry),
         g_ip g <> "" ->
         process_line a peer_map (Matched g) = Append e ->
         endpoint e <> "").
Proof.
  split; [|split].
  - intros l n key.
    destruct (reconstruct_peer key (take n l) []) as [Hview _].
    fold (final_states (take n l)) in Hview.
    destruct (run_peer_started_by (fun _ => True)
                (for_peer key (take n l)) (peer_view [] key)) as [Hfin _].
    { apply Forall_forall. done. }
    { intros Hc. discriminate Hc. }
    rewrite <- Hview in Hfin. intros Hst.
    destruct (Hfin Hst) as (c & _ & _ & Ht & Hip).
    rewrite Ht, Hip. by split.
  - intros l s Hs.
    destruct (calculate_sessions_started_by l s Hs)
      as (c & [Hc Hk] & Hcc & Ht & Hstart & Hip).
    exists c. repeat split; try done.
    intros Hne. rewrite Hip. simpl. by destruct (endpoint c).
  - intros a peer_map g e Hip. simpl.
    destruct (g_timestamp g); [|done].
    destruct (negb (in_date_range a d)); [done|].
    destruct (_ && _); [done|].
    destruct (split_first (g_event g)); [|done].
    intros [= <-]. done.
Qed.

Lemma C9_connected_has_start_fields_witness :
  Sample.open_K2 ∈ calculate_sessions Sample.stream
  /\ exists c,
      c ∈ Sample.stream /\ peer_key c = "K2" /\ is_connect_event c = true
      /\ at_start_time Sample.open_K2 = Some (timestamp c)
      /\ SessionStart (row Sample.open_K2) = isoformat (timestamp c)
      /\ (endpoint c <> "" -> EndpointIP (row Sample.open_K2) = endpoint c).
Proof.
  assert (Sample.open_K2 ∈ calculate_sessions Sample.stream) as Hin.
  { vm_compute. do 2 apply list_elem_of_further. apply list_elem_of_here. }
  split; [exact Hin|].
  exact (proj1 (proj2 C9_connected_has_start_fields)
           Sample.stream Sample.open_K2 Hin).
Defined.

(** ** Sessions of a peer do not overlap *)

Lemma for_peer_chronological key l :
  chronological l -> chronological (for_peer key l).
Proof.
  unfold chronological, for_peer.
  induction 1 as [|x l Hl IH Hx]; [constructor|].
  rewrite filter_cons. destruct (decide (peer_key x = key)); [|done].
  constructor; [done|].
  apply Forall_forall. intros y [_ Hy]%list_elem_of_filter.
  rewrite Forall_forall in Hx. by apply Hx.
Qed.

Section Timeline.

Implicit Types (st : peer_state) (e : entry) (p : list entry).

Lemma cells_cons st e p :
  cells st (e :: p)
  = timeline (snd (transition st e)) ++ cells (fst (transition st e)) p.
Proof.
  unfold cells, timeline. simpl.
  destruct (transition st e) as [st1 out]. simpl.
  destruct (run_peer st1 p) as [st2 outs]. simpl.
  by rewrite flat_map_app, app_assoc.
Qed.

(** Every cell is the timestamp of an entry of the stream, or the start
    time the peer had before the stream when it was connected. *)
Lemma cells_members p :
  forall st,
    (status st = disconnected ->
     Forall (fun t => exists e, e ∈ p /\ t = Some (timestamp e))
            (cells st p))
    /\ (forall s,
           status st = connected -> session_start_time st = Some s ->
           Forall (fun t => t = Some s
                            \/ exists e, e ∈ p /\ t = Some (timestamp e))
                  (cells st p)).
Proof.
  induction p as [|e p IH]; intros st.
  { unfold cells, open_start. simpl. split.
    - intros ->. constructor.
    - intros s -> ->. repeat constructor. }
  rewrite cells_cons. split.
  - intros Hs.
    destruct (is_connect_event e) eqn:Hc;
      [|destruct (is_disconnect_event e) eqn:Hd].
    + rewrite (transition_open st e Hc Hs). simpl.
      destruct (open_session_fields (adopt_name st e) e) as (H1 & H2 & _).
      eapply Forall_impl; [apply (proj2 (IH _) _ H1 H2)|].
      intros t [->|(e' & He' & ->)].
      * exists e. split; [left|done].
      * exists e'. split; [by right|done].
    + rewrite (transition_redundant st e Hd Hs). simpl.
      eapply Forall_impl; [apply (proj1 (IH _))|].
      * by rewrite adopt_name_status.
      * intros t (e' & He' & ->). exists e'. split; [by right|done].
    + rewrite (transition_other st e Hc Hd). simpl.
      eapply Forall_impl; [apply (proj1 (IH _))|].
      * by rewrite adopt_name_status.
      * intros t (e' & He' & ->). exists e'. split; [by right|done].
  - intros s Hs Ht.
    destruct (is_connect_event e) eqn:Hc;
      [|destruct (is_disconnect_event e) eqn:Hd].
    + rewrite (transition_reconnect st e Hc Hs). simpl.
      eapply Forall_impl; [apply (proj2 (IH _) s)|].
      * by rewrite adopt_name_status.
      * by rewrite adopt_name_start_time.
      * intros t [->|(e' & He' & ->)]; [by left|].
        right. exists e'. split; [by right|done].
    + rewrite (transition_close st e Hd Hs). simpl.
      constructor; [by left|]. constructor.
      { right. exists e. split; [left|done]. }
      eapply Forall_impl; [apply (proj1 (IH _))|].
      * done.
      * intros t (e' & He' & ->). right. exists e'.
        split; [by right|done].
    + rewrite (transition_other st e Hc Hd). simpl.
      eapply Forall_impl; [apply (proj2 (IH _) s)|].
      * by rewrite adopt_name_status.
      * by rewrite adopt_name_start_time.
      * intros t [->|(e' & He' & ->)]; [by left|].
        right. exists e'. split; [by right|done].
Qed.

(** On a chronological stream that starts no earlier than the session
    the peer is in, the cells come in chronological order. *)
Lemma cells_sorted p :
  forall st,
    chronological p ->
    (status st = connected ->
     exists s, session_start_time st = Some s
               /\ Forall (fun e => dt_le s (timestamp e)) p) ->
    StronglySorted known_le (cells st p).
Proof.
  induction p as [|e p IH]; intros st Hp Hst.
  { unfold cells, open_start. simpl.
    destruct (status st); repeat constructor. }
  apply StronglySorted_inv in Hp as [Hp He].
  rewrite cells_cons.
  assert (forall st', status st' = status st ->
                      session_start_time st' = session_start_time st ->
                      StronglySorted known_le (cells st' p)) as Hsame.
  { intros st' H1 H2. apply IH; [done|]. rewrite H1, H2. intros Hc.
    destruct (Hst Hc) as (s & Hs & Hall). exists s. split; [done|].
    by apply Forall_inv_tail in Hall. }
  destruct (is_connect_event e) eqn:Hc;
    [|destruct (is_disconnect_event e) eqn:Hd];
    (destruct (status st) eqn:Hs).
  - rewrite (transition_open st e Hc Hs). simpl.
    destruct (open_session_fields (adopt_name st e) e) as (H1 & H2 & _).
    apply IH; [done|]. intros _. by exists (timestamp e).
  - rewrite (transition_reconnect st e Hc Hs). simpl.
    apply Hsame; [by rewrite adopt_name_status
                 | by rewrite adopt_name_start_time].
  - rewrite (transition_redundant st e Hd Hs). simpl.
    apply Hsame; [by rewrite adopt_name_status
                 | by rewrite adopt_name_start_time].
  - rewrite (transition_close st e Hd Hs). simpl.
    destruct (Hst eq_refl) as (s & Hstart & Hall).
    apply Forall_cons in Hall as [Hse Hall].
    pose proof (proj1 (cells_members p (close_session (adopt_name st e)))
                  eq_refl) as Hmem.
    rewrite Hstart.
    constructor; [constructor|].
    + apply IH; [done|]. intros Hcontra. discriminate Hcontra.
    + eapply Forall_impl; [exact Hmem|].
      intros t (e' & He' & ->). simpl.
      rewrite Forall_forall in He. by apply He.
    + constructor; [exact Hse|].
      eapply Forall_impl; [exact Hmem|].
      intros t (e' & He' & ->). simpl.
      rewrite Forall_forall in Hall. by apply Hall.
  - rewrite (transition_other st e Hc Hd). simpl.
    apply Hsame; [by rewrite adopt_name_status
                 | by rewrite adopt_name_start_time].
  - rewrite (transition_other st e Hc Hd). simpl.
    apply Hsame; [by rewrite adopt_name_status
                 | by rewrite adopt_name_start_time].
Qed.

End Timeline.

Lemma peer_cells_sorted l key :
  chronological l ->
  StronglySorted known_le
    (timeline (sessions_of key (completed_sessions l))
     ++ (at_start_time
           <$> sessions_of key (ongoing_sessions (last_log_time l)
                                                 (final_states l)))).
Proof.
  intros Hl.
  destruct (reconstruct_peer key l []) as [Hview Hout].
  fold (final_states l) in Hview. fold (completed_sessions l) in Hout.
  rewrite (ongoing_sessions_peer _ _ key (final_states_NoDup l)).
  pose proof (cells_sorted (for_peer key l) (peer_view [] key)
                (for_peer_chronological key l Hl)) as Hsorted.
  unfold cells, open_start in Hsorted. rewrite <- Hview, <- Hout in Hsorted.
  destruct (status (peer_view (final_states l) key));
    apply Hsorted; intros Hc; discriminate Hc.
Qed.

Lemma timeline_pairwise (S : list appended) (O : list (option datetime)) :
  StronglySorted known_le (timeline S ++ O) ->
  (forall (i j : nat) s1 s2,
      (i < j)%nat -> S !! i = Some s1 -> S !! j = Some s2 ->
      known_le (at_end_time s1) (at_start_time s2))
  /\ (forall s, s ∈ S -> known_le (at_start_time s) (at_end_time s))
  /\ (forall s o, s ∈ S -> o ∈ O -> known_le (at_end_time s) o).
Proof.
  induction S as [|s S IH]; intros Hsorted.
  { split; [|split].
    - intros i j s1 s2 _ Hi. by rewrite lookup_nil in Hi.
    - intros s Hs. by apply elem_of_nil in Hs.
    - intros s o Hs. by apply elem_of_nil in Hs. }
  change (timeline (s :: S) ++ O)
    with (at_start_time s :: at_end_time s :: (timeline S ++ O)) in Hsorted.
  apply StronglySorted_inv in Hsorted as [Hsorted Hstart].
  apply StronglySorted_inv in Hsorted as [Hsorted Hend].
  apply Forall_cons in Hstart as [Hse _].
  rewrite Forall_forall in Hend.
  destruct (IH Hsorted) as (IH1 & IH2 & IH3).
  split; [|split].
  - intros i j s1 s2 Hij Hi Hj.
    destruct j as [|j]; [lia|]. simpl in Hj.
    destruct i as [|i]; simpl in Hi.
    + injection Hi as <-. apply Hend. apply elem_of_app. left.
      unfold timeline. apply list_elem_of_In, in_flat_map.
      exists s2. split; [by apply list_elem_of_In, list_elem_of_lookup_2 with j|].
      by left.
    + apply (IH1 i j); [lia|done|done].
  - intros s' [->|Hs]%elem_of_cons; [done | by apply IH2].
  - intros s' o [->|Hs]%elem_of_cons Ho; [|by apply IH3].
    apply Hend. apply elem_of_app. by right.
Qed.

(** C10.  The stream that [process_logs] hands to the loop is
    chronological.  On a chronological stream the sessions of a peer come
    out in chronological order and do not overlap: among the completed
    sessions of one key, an earlier one ends no later than a later one
    starts, each starts no later than it ends, and the open session of
    that key, if there is one, starts no earlier than every completed one
    ends. *)
Theorem C10_sessions_of_a_peer_do_not_overlap :
  (forall l : list entry, chronological (sort_entries l))
  /\ (forall (l : list entry) (key : string),
         chronological l ->
         let completed := sessions_of key (completed_sessions l) in
         let open := sessions_of key (ongoing_sessions (last_log_time l)
                                                       (final_states l)) in
         (forall (i j : nat) s1 s2,
             (i < j)%nat ->
             completed !! i = Some s1 -> completed !! j = Some s2 ->
             known_le (at_end_time s1) (at_start_time s2))
         /\ (forall s, s ∈ completed ->
                       known_le (at_start_time s) (at_end_time s))
         /\ (forall s o, s ∈ completed -> o ∈ open ->
                         known_le (at_end_time s) (at_start_time o))).
Proof.
  split; [apply sort_entries_chronological|].
  intros l key Hl completed open.
  destruct (timeline_pairwise _ _ (peer_cells_sorted l key Hl))
    as (H1 & H2 & H3).
  split; [exact H1|]. split; [exact H2|].
  intros s o Hs Ho. apply (H3 s); [done|].
  apply list_elem_of_fmap. by exists o.
Qed.

Lemma C10_sessions_of_a_peer_do_not_overlap_witness :
  chronological Sample.stream
  /\ Sample.session_K1 ∈ sessions_of "K1" (completed_sessions Sample.stream)
  /\ Sample.open_K1
     ∈ sessions_of "K1" (ongoing_sessions (last_log_time Sample.stream)
                                          (final_states Sample.stream))
  /\ known_le (at_end_time Sample.session_K1) (at_start_time Sample.open_K1).
Proof.
  assert (chronological Sample.stream) as Hsorted.
  { change Sample.stream with (sort_entries Sample.stream).
    apply sort_entries_chronological. }
  assert (Sample.session_K1
          ∈ sessions_of "K1" (completed_sessions Sample.stream)) as Hs
    by (vm_compute; apply list_elem_of_here).
  assert (Sample.open_K1
          ∈ sessions_of "K1" (ongoing_sessions (last_log_time Sample.stream)
                                               (final_states Sample.stream)))
    as Ho by (vm_compute; apply list_elem_of_here).
  split; [exact Hsorted|]. split; [exact Hs|]. split; [exact Ho|].
  exact (proj2 (proj2 (proj2 C10_sessions_of_a_peer_do_not_overlap
                         Sample.stream "K1" Hsorted))
           Sample.session_K1 Sample.open_K1 Hs Ho).
Defined.

(** ** The default date range *)

(** C3, as the script has it.  When no start date is given and
    [parse_arguments] returns, the start date is the end date minus
    [days - 1] days, so that the inclusive range covers [days] calendar
    days; it does return with that range whenever [days] is at least 1 and
    the start so computed is a date of the calendar. *)
Theorem C3_default_start_date :
  (forall (today : date) (end_date : date_arg) (days : Z) (r : date_range),
      parse_arguments today Absent end_date days = Returned r ->
      start_date_dt r = end_date_dt r - (days - 1)
      /\ end_date_dt r = match end_date with Given d => d | _ => today end)
  /\ (forall (today : date) (end_date : date_arg) (end_dt : date) (days : Z),
         (end_date = Absent /\ end_dt = today) \/ end_date = Given end_dt ->
         1 <= days <= end_dt -> end_dt <= MAXORDINAL ->
         parse_arguments today Absent end_date days
         = Returned {| start_date_dt := end_dt - (days - 1);
                       end_date_dt := end_dt |}).
Proof.
  split.
  - intros today end_date days r. unfold parse_arguments, date_minus_days.
    destruct end_date as [|d|]; [| |done];
      (destruct (_ || _); [done|]);
      (destruct (_ && _); [|done]);
      (destruct (_ <? _); [done|]);
      intros [= <-]; done.
  - intros today end_date end_dt days Hend Hdays Hmax.
    assert ((days - 1 <? - MAX_DELTA_DAYS) = false) as H1
      by (unfold MAX_DELTA_DAYS, MAXORDINAL in *; lia).
    assert ((MAX_DELTA_DAYS <? days - 1) = false) as H2
      by (unfold MAX_DELTA_DAYS, MAXORDINAL in *; lia).
    assert ((MINORDINAL <=? end_dt - (days - 1)) = true) as H3
      by (unfold MINORDINAL; lia).
    assert ((end_dt - (days - 1) <=? MAXORDINAL) = true) as H4 by lia.
    assert ((end_dt <? end_dt - (days - 1)) = false) as H5 by lia.
    unfold parse_arguments, date_minus_days.
    destruct Hend as [[-> ->]| ->]; rewrite H1, H2, H3, H4; simpl;
      by rewrite H5.
Qed.

Lemma C3_default_start_date_witness :
  parse_arguments Sample.jan1 Absent (Given (Sample.jan1 + 9)) 3
  = Returned {| start_date_dt := Sample.jan1 + 7;
                end_date_dt := Sample.jan1 + 9 |}
  /\ Sample.jan1 + 7 = Sample.jan1 + 9 - (3 - 1).
Proof.
  split; [reflexivity|].
  exact (proj1 (proj1 C3_default_start_date Sample.jan1
                  (Given (Sample.jan1 + 9)) 3
                  {| start_date_dt := Sample.jan1 + 7;
                     end_date_dt := Sample.jan1 + 9 |} eq_refl)).
Defined.

(** With the default of three days and no dates given on 2024-01-10, the
    range starts on 2024-01-08, two days before its end, not three. *)
Lemma C3_default_start_date_counterexample :
  exists r,
    parse_arguments (Sample.jan1 + 9) Absent Absent 3 = Returned r
    /\ isoformat (mk_datetime (start_date_dt r) 0 0 0 0)
       = "2024-01-08T00:00:00+00:00"
    /\ isoformat (mk_datetime (end_date_dt r) 0 0 0 0)
       = "2024-01-10T00:00:00+00:00"
    /\ start_date_dt r <> end_date_dt r - 3.
Proof.
  eexists. split; [reflexivity|]. repeat split. discriminate.
Qed.

(** ** The date filter *)

(** C7.  A timestamp passes the date test exactly when its own calendar
    date lies between the start date and the end date, both included; a
    line that fails the test is dropped and, with no peer selected, a line
    that passes it is kept.  So a timestamp at 23:59:59 on the end date
    passes and the next second, 00:00:00 of the following day, does not.
    The date is the one written in the timestamp: of two timestamps for
    the same instant, written in different offsets, one can pass and the
    other not. *)
Theorem C7_date_filter_is_inclusive :
  (forall (a : args) (t : datetime),
      in_date_range a t = true
      <-> start_date_dt (range a) <= date_of t <= end_date_dt (range a))
  /\ (forall (a : args) (peer_map : gmap string string) (g : groups)
             (t : datetime),
         g_timestamp g = Some t ->
         (in_date_range a t = false ->
          process_line a peer_map (Matched g) = Skip)
         /\ (in_date_range a t = true -> user a = "all" ->
             is_Some (split_first (g_event g)) ->
             exists e, process_line a peer_map (Matched g) = Append e
                       /\ timestamp e = t))
  /\ (forall (a : args) (t : datetime),
         start_date_dt (range a) <= end_date_dt (range a) ->
         date_of t = end_date_dt (range a) ->
         dt_hour t = 23 -> dt_minute t = 59 -> dt_second t = 59 ->
         in_date_range a t = true
         /\ next_second t
            = mk_datetime (end_date_dt (range a) + 1) 0 0 0 (dt_utcoffset t)
         /\ in_date_range a (next_second t) = false)
  /\ (forall a : args,
         start_date_dt (range a) <= end_date_dt (range a) ->
         let t1 := mk_datetime (end_date_dt (range a)) 23 30 0 0 in
         let t2 := mk_datetime (end_date_dt (range a) + 1) 7 30 0 480 in
         utc_seconds t1 = utc_seconds t2
         /\ in_date_range a t1 = true /\ in_date_range a t2 = false).
Proof.
  split; [|split; [|split]].
  - intros a t. unfold in_date_range. lia.
  - intros a peer_map g t Ht. simpl. rewrite Ht. split.
    + by intros ->.
    + intros -> -> [w ->]. simpl. by eexists.
  - intros a [d h m s off] Hrange Hd Hh Hm Hs. simpl in *. subst.
    unfold in_date_range, next_second, date_of. simpl.
    repeat split; lia.
  - intros a Hrange t1 t2. subst t1 t2.
    unfold in_date_range, utc_seconds, seconds_of_day, date_of. simpl.
    repeat split; lia.
Qed.

Lemma C7_date_filter_is_inclusive_witness :
  start_date_dt (range Sample.all_january)
  <= end_date_dt (range Sample.all_january)
  /\ in_date_range Sample.all_january (Sample.jan 31 23 59 59) = true
  /\ next_second (Sample.jan 31 23 59 59) = Sample.jan 32 0 0 0
  /\ in_date_range Sample.all_january (Sample.jan 32 0 0 0) = false.
Proof.
  assert (start_date_dt (range Sample.all_january)
          <= end_date_dt (range Sample.all_january)) as Hrange
    by (vm_compute; discriminate).
  destruct (proj1 (proj2 (proj2 C7_date_filter_is_inclusive))
              Sample.all_january (Sample.jan 31 23 59 59) Hrange
              eq_refl eq_refl eq_refl eq_refl) as (H1 & H2 & H3).
  split; [exact Hrange|]. split; [exact H1|]. split; [reflexivity|].
  exact H3.
Defined.

(** ** Reading the files one by one *)

Section Reading.

Context (a : args) (peer_map : gmap string string).














End Reading.




(** ** Name resolution *)

Lemma process_line_Append a peer_map l e :
  process_line a peer_map l = Append e ->
  exists g,
    l = Matched g /\ peer_key e = g_key g /\ endpoint e = g_ip g
    /\ peer_name e = resolve_name peer_map (g_key g) (g_name_from_log g)
    /\ (user a = "all" \/ peer_name e = user a).
Proof.
  destruct l as [|g]; [done|]. simpl.
  destruct (g_timestamp g); [|done].
  destruct (negb (in_date_range a d)); [done|].
  destruct (bool_decide_reflect (user a = "all")) as [Hall|Hall]; simpl.
  - destruct (split_first (g_event g)); [|done].
    intros [= <-]. exists g. simpl. repeat split; by left.
  - destruct (bool_decide_reflect
                (resolve_name peer_map (g_key g) (g_name_from_log g)
                 = user a)) as [Hu|Hu]; simpl; [|done].
    destruct (split_first (g_event g)); [|done].
    intros [= <-]. exists g. simpl. repeat split; by right.
Qed.

Section ReadEntries.

Context (a : args) (peer_map : gmap string string) (P : entry -> Prop).
Hypothesis line_entry :
  forall l e, process_line a peer_map l = Append e -> P e.

Lemma read_lines_Forall ls r :
  Forall P (log_entries r) ->
  Forall P (log_entries (fst (read_lines a peer_map ls r))).
Proof using line_entry.
  revert r. induction ls as [|l ls IH]; intros r Hr; simpl; [done|].
  destruct (process_line a peer_map l) eqn:Hl; simpl; try done.
  - by apply IH.
  - by apply IH.
  - apply IH. simpl. apply Forall_app. split; [done|].
    constructor; [by eapply line_entry | constructor].
Qed.

Lemma read_file_Forall f r :
  Forall P (log_entries r) ->
  Forall P (log_entries (read_file a peer_map f r)).
Proof using line_entry.
  intros Hr. unfold read_file.
  pose proof (read_lines_Forall (lines f)
                (print (Processing_file (path f)) r) Hr) as H.
  destruct (read_lines a peer_map (lines f) (print _ r)) as [r1 fin].
  by destruct (fin && negb (read_fails f)).
Qed.

Lemma read_files_Forall fs r :
  Forall P (log_entries r) ->
  Forall P (log_entries (read_files a peer_map fs r)).
Proof using line_entry.
  revert r. induction fs as [|f fs IH]; intros r Hr; simpl; [done|].
  by apply IH, read_file_Forall.
Qed.

End ReadEntries.

(** A peer whose entries all resolve to the name of the peer map is
    reported under that name. *)
Lemma transition_named_by name st e :
  peer_name e = name ->
  current_name st = name
  \/ (current_name st = "Unknown" /\ status st = disconnected) ->
  current_name (fst (transition st e)) = name
  /\ Forall (fun s => PeerName (row s) = name) (snd (transition st e)).
Proof.
  intros He Hst.
  assert (current_name (adopt_name st e) = name) as Hadopt.
  { rewrite adopt_name_name, He.
    destruct (bool_decide_reflect (name = "Unknown")) as [Hu|Hu]; [|done].
    destruct Hst as [?|[? _]]; congruence. }
  split; [by rewrite transition_name|].
  unfold transition.
  destruct (is_connect_event e), (is_disconnect_event e),
    (status (adopt_name st e)); simpl;
    first [ by apply Forall_nil
          | by (constructor; [exact Hadopt | apply Forall_nil]) ].
Qed.





(** * Further properties *)

(** ** Durations as text *)

Lemma string_length_app (s1 s2 : string) :
  String.length (s1 +:+ s2) = (String.length s1 + String.length s2)%nat.
Proof. induction s1 as [|c s1 IH]; simpl; [done | by rewrite IH]. Qed.

Lemma zero_pad_2_length (n : Z) :
  0 <= n < 100 -> String.length (zero_pad 2 n) = 2%nat.
Proof.
  intros Hn.
  assert (forallb (fun k => Nat.eqb (String.length (zero_pad 2 (Z.of_nat k))) 2)
                  (seq 0 100) = true) as Hall by (vm_compute; reflexivity).
  rewrite forallb_forall in Hall.
  specialize (Hall (Z.to_nat n)).
  rewrite Z2Nat.id in Hall by lia.
  apply Nat.eqb_eq, Hall, in_seq. lia.
Qed.

(** X1.  A duration of [h] hours, [m] minutes and [s] seconds, with [m]
    and [s] below 60, is rendered as these three numbers, each padded to
    two digits: the hours are not reduced modulo 24 (nor bounded at
    all).  Below one hundred hours the text is eight characters long. *)
Theorem X1_format_duration_hms :
  (forall h m s : Z,
      0 <= m < 60 -> 0 <= s < 60 ->
      format_duration (Some (h * 3600 + m * 60 + s))
      = zero_pad 2 h +:+ ":" +:+ zero_pad 2 m +:+ ":" +:+ zero_pad 2 s)
  /\ (forall t : Z,
         0 <= t < 360000 ->
         String.length (format_duration (Some t)) = 8%nat).
Proof.
  split.
  - intros h m s Hm Hs. unfold format_duration.
    assert ((h * 3600 + m * 60 + s) / 3600 = h) as ->
      by (symmetry; apply (Z.div_unique_pos _ 3600 h (m * 60 + s)); lia).
    assert ((h * 3600 + m * 60 + s) mod 3600 = m * 60 + s) as ->
      by (symmetry; apply (Z.mod_unique_pos _ 3600 h (m * 60 + s)); lia).
    assert ((m * 60 + s) / 60 = m) as ->
      by (symmetry; apply (Z.div_unique_pos _ 60 m s); lia).
    assert ((m * 60 + s) mod 60 = s) as ->
      by (symmetry; apply (Z.mod_unique_pos _ 60 m s); lia).
    done.
  - intros t Ht. unfold format_duration.
    rewrite !string_length_app, !zero_pad_2_length; [done| | |].
    + pose proof (Z.mod_pos_bound (t mod 3600) 60). lia.
    + pose proof (Z.mod_pos_bound t 3600).
      split; [apply Z.div_pos; lia | apply Z.div_lt_upper_bound; lia].
    + split; [apply Z.div_pos; lia | apply Z.div_lt_upper_bound; lia].
Qed.

Lemma X1_format_duration_hms_witness :
  0 <= 2 < 60 /\ 0 <= 3 < 60
  /\ format_duration (Some (25 * 3600 + 2 * 60 + 3)) = "25:02:03".
Proof.
  split; [lia|]. split; [lia|].
  rewrite (proj1 X1_format_duration_hms 25 2 3) by lia. reflexivity.
Defined.

(** ** The peer map *)

Lemma fill_peer_map_lookup (data : list (string * details))
    (peer_map : gmap string string) (key : string) :
  fill_peer_map peer_map data !! key
  = last_name_for key data (peer_map !! key).
Proof.
  revert peer_map.
  induction data as [|[name [k| |]] data IH]; intros peer_map; simpl;
    try done.
  rewrite IH, lookup_insert.
  destruct (bool_decide_reflect (k = key)) as [Hk|Hk].
  - by rewrite decide_True.
  - by rewrite decide_False.
Qed.

Lemma last_name_for_unbound (key : string) (data : list (string * details))
    (found : option string) :
  Forall (fun x => x.2 <> WithPublicKey key) data ->
  last_name_for key data found = found.
Proof.
  intros Hdata. revert found.
  induction Hdata as [|[name [k| |]] data Hx Hdata IH]; intros found; simpl;
    try done.
  rewrite IH. destruct (bool_decide_reflect (k = key)) as [->|]; [|done].
  by destruct Hx.
Qed.

Lemma last_name_for_app (key : string) (d1 d2 : list (string * details))
    (found : option string) :
  Forall (fun x => x.2 <> Unusable) d1 ->
  last_name_for key (d1 ++ d2) found
  = last_name_for key d2 (last_name_for key d1 found).
Proof.
  intros Hd1. revert found.
  induction Hd1 as [|[name [k| |]] d1 Hx Hd1 IH]; intros found; simpl;
    done.
Qed.

Lemma dict_set_fresh (d : list (string * details)) (name : string)
    (v : details) :
  name ∉ d.*1 -> dict_set d name v = d ++ [(name, v)].
Proof.
  induction d as [|[n old] d IH]; simpl; [done|].
  rewrite not_elem_of_cons. intros [Hne Hd].
  rewrite bool_decide_false by congruence. by rewrite IH.
Qed.

Lemma json_object_from (acc members : list (string * details)) :
  NoDup (acc ++ members).*1 ->
  foldl (fun d m => dict_set d m.1 m.2) acc members = acc ++ members.
Proof.
  revert acc. induction members as [|[n v] members IH]; intros acc Hnd;
    simpl; [by rewrite app_nil_r|].
  rewrite dict_set_fresh.
  - rewrite IH; rewrite <- app_assoc; done.
  - rewrite fmap_app in Hnd. simpl in Hnd.
    apply NoDup_app in Hnd as (_ & Hdisj & _).
    intros Hin. apply (Hdisj n Hin). left.
Qed.

(** Without repeated names the dictionary is the list of the members. *)
Lemma json_object_NoDup (members : list (string * details)) :
  NoDup members.*1 -> json_object members = members.
Proof. intros Hnd. by apply (json_object_from []). Qed.

Lemma dict_set_values (P : details -> Prop) (d : list (string * details))
    (name : string) (v : details) :
  Forall (fun x => P x.2) d -> P v ->
  Forall (fun x => P x.2) (dict_set d name v).
Proof.
  intros Hd Hv. induction Hd as [|[n old] d Hx Hd IH]; simpl.
  - by repeat constructor.
  - destruct (bool_decide (n = name)); by constructor.
Qed.

Lemma foldl_dict_set_values (P : details -> Prop)
    (members acc : list (string * details)) :
  Forall (fun x => P x.2) acc -> Forall (fun x => P x.2) members ->
  Forall (fun x => P x.2)
         (foldl (fun d m => dict_set d m.1 m.2) acc members).
Proof.
  revert acc. induction members as [|[n v] members IH]; intros acc Hacc Hm;
    simpl; [done|].
  apply Forall_cons in Hm as [Hv Hm].
  apply IH; [|done]. by apply dict_set_values.
Qed.

Lemma json_object_values (P : details -> Prop)
    (members : list (string * details)) :
  Forall (fun x => P x.2) members ->
  Forall (fun x => P x.2) (json_object members).
Proof. intros Hm. by apply foldl_dict_set_values; [apply Forall_nil|]. Qed.

(** A dictionary that starts with a name keeps that name in front. *)
Lemma json_object_head (members acc : list (string * details))
    (name : string) (v : details) :
  exists w rest,
    foldl (fun d m => dict_set d m.1 m.2) ((name, v) :: acc) members
    = (name, w) :: rest.
Proof.
  revert acc v. induction members as [|[n x] members IH]; intros acc v;
    simpl; [by eexists _, _|].
  destruct (bool_decide (name = n)); apply IH.
Qed.

(** X2.  In the loaded map a key has the name of the last member of the
    file that carries it as [publicKey]: among members with distinct
    names, later ones override earlier ones.  A key that no member
    carries is not in the map, so a name resolved for it is the one the
    log line carries.  Of a name that the file gives twice only the
    second value counts: the key of the first is not in the map. *)
Theorem X2_load_peer_map_last_member_wins :
  (forall (d1 d2 : list (string * details)) (name key : string),
      NoDup (d1 ++ (name, WithPublicKey key) :: d2).*1 ->
      Forall (fun x => x.2 <> Unusable) d1 ->
      Forall (fun x => x.2 <> WithPublicKey key) d2 ->
      load_peer_map (MapData (d1 ++ (name, WithPublicKey key) :: d2)) !! key
      = Some name)
  /\ (forall (data : list (string * details)) (key name_from_log : string),
         Forall (fun x => x.2 <> WithPublicKey key) data ->
         load_peer_map (MapData data) !! key = None
         /\ resolve_name (load_peer_map (MapData data)) key name_from_log
            = name_from_log)
  /\ (forall name k1 k2 : string,
         k1 <> k2 ->
         load_peer_map (MapData [(name, WithPublicKey k1);
                                 (name, WithPublicKey k2)]) !! k1 = None
         /\ load_peer_map (MapData [(name, WithPublicKey k1);
                                    (name, WithPublicKey k2)]) !! k2
            = Some name).
Proof.
  split; [|split].
  - intros d1 d2 name key Hnd Hd1 Hd2. simpl.
    rewrite json_object_NoDup by done.
    rewrite fill_peer_map_lookup, last_name_for_app by done. simpl.
    rewrite bool_decide_true by done. by apply last_name_for_unbound.
  - intros data key name_from_log Hdata. simpl. unfold resolve_name.
    rewrite fill_peer_map_lookup, last_name_for_unbound
      by (by apply (json_object_values (fun v => v <> WithPublicKey key))).
    by rewrite lookup_empty.
  - intros name k1 k2 Hne. simpl. unfold json_object. simpl.
    rewrite bool_decide_true by done. simpl.
    rewrite lookup_insert_ne by congruence.
    by rewrite lookup_empty, lookup_insert_eq.
Qed.

Lemma X2_load_peer_map_last_member_wins_witness :
  NoDup ([("old-laptop", WithPublicKey "K1")]
         ++ ("laptop", WithPublicKey "K1")
            :: [("phone", WithPublicKey "K2")]).*1
  /\ Forall (fun x : string * details => x.2 <> Unusable)
            [("old-laptop", WithPublicKey "K1")]
  /\ Forall (fun x : string * details => x.2 <> WithPublicKey "K1")
            [("phone", WithPublicKey "K2")]
  /\ load_peer_map (MapData [("old-laptop", WithPublicKey "K1");
                             ("laptop", WithPublicKey "K1");
                             ("phone", WithPublicKey "K2")]) !! "K1"
     = Some "laptop".
Proof.
  assert (NoDup ([("old-laptop", WithPublicKey "K1")]
                 ++ ("laptop", WithPublicKey "K1")
                    :: [("phone", WithPublicKey "K2")]).*1) as H0.
  { simpl. repeat (apply NoDup_cons; split);
      [| |apply not_elem_of_nil|apply NoDup_nil_2];
      intros Hin; repeat (apply elem_of_cons in Hin as [Hin|Hin];
                          [discriminate Hin|]);
      by apply elem_of_nil in Hin. }
  assert (Forall (fun x : string * details => x.2 <> Unusable)
                 [("old-laptop", WithPublicKey "K1")]) as H1
    by (repeat constructor; discriminate).
  assert (Forall (fun x : string * details => x.2 <> WithPublicKey "K1")
                 [("phone", WithPublicKey "K2")]) as H2
    by (repeat constructor; discriminate).
  split; [exact H0|]. split; [exact H1|]. split; [exact H2|].
  exact (proj1 X2_load_peer_map_last_member_wins
           [("old-laptop", WithPublicKey "K1")]
           [("phone", WithPublicKey "K2")] "laptop" "K1" H0 H1 H2).
Defined.

Lemma fill_peer_map_stops (d1 d2 : list (string * details)) (name : string)
    (peer_map : gmap string string) :
  fill_peer_map peer_map (d1 ++ (name, Unusable) :: d2)
  = fill_peer_map peer_map d1.
Proof.
  revert peer_map.
  induction d1 as [|[n [k| |]] d1 IH]; intros peer_map; simpl; done.
Qed.

(** X3.  The loader degrades instead of failing.  Among members with
    distinct names, one on which the loop raises ends the loading: the
    members before it are in the map, those after it are not looked at.
    When the file gives its first name again at the end, with a value on
    which the loop raises, the loop stops at once and the map is empty.
    With a missing or unloadable file the map is empty and every name is
    the one the log line carries. *)
Theorem X3_load_peer_map_degrades :
  (forall (d1 d2 : list (string * details)) (name : string),
      NoDup (d1 ++ (name, Unusable) :: d2).*1 ->
      load_peer_map (MapData (d1 ++ (name, Unusable) :: d2))
      = load_peer_map (MapData d1))
  /\ (forall (d : list (string * details)) (name : string) (v : details),
         load_peer_map (MapData ((name, v) :: d ++ [(name, Unusable)])) = ∅)
  /\ (forall (f : map_file) (key name_from_log : string),
         f = MapMissing \/ f = MapUnloadable ->
         resolve_name (load_peer_map f) key name_from_log = name_from_log).
Proof.
  split; [|split].
  - intros d1 d2 name Hnd. simpl.
    rewrite (json_object_NoDup (d1 ++ _)) by done.
    rewrite json_object_NoDup.
    + apply fill_peer_map_stops.
    + rewrite fmap_app in Hnd. by apply NoDup_app in Hnd as (? & _ & _).
  - intros d name v. simpl. unfold json_object.
    change ((name, v) :: d ++ [(name, Unusable)])
      with (((name, v) :: d) ++ [(name, Unusable)]).
    rewrite foldl_app. simpl.
    destruct (json_object_head d [] name v) as (w & rest & ->).
    simpl. by rewrite bool_decide_true.
  - intros f key name_from_log [-> | ->]; unfold resolve_name; simpl;
      by rewrite lookup_empty.
Qed.

Lemma X3_load_peer_map_degrades_witness :
  NoDup ([("laptop", WithPublicKey "K1")]
         ++ ("note", Unusable) :: [("phone", WithPublicKey "K2")]).*1
  /\ load_peer_map (MapData [("laptop", WithPublicKey "K1");
                             ("note", Unusable);
                             ("phone", WithPublicKey "K2")])
     = load_peer_map (MapData [("laptop", WithPublicKey "K1")]).
Proof.
  assert (NoDup ([("laptop", WithPublicKey "K1")]
                 ++ ("note", Unusable)
                    :: [("phone", WithPublicKey "K2")]).*1) as H0.
  { simpl. repeat (apply NoDup_cons; split);
      [| |apply not_elem_of_nil|apply NoDup_nil_2];
      intros Hin; repeat (apply elem_of_cons in Hin as [Hin|Hin];
                          [discriminate Hin|]);
      by apply elem_of_nil in Hin. }
  split; [exact H0|].
  exact (proj1 X3_load_peer_map_degrades
           [("laptop", WithPublicKey "K1")]
           [("phone", WithPublicKey "K2")] "note" H0).
Defined.

(** ** The primary event word *)

Lemma lstrip_head (s : string) c s' :
  lstrip s = String c s' -> isspace c = false.
Proof.
  induction s as [|c0 s IH]; simpl; [done|].
  destruct (isspace c0) eqn:Hc0; [exact IH|]. by intros [= <- _].
Qed.

Lemma take_word_no_space (s : string) : no_space (take_word s) = true.
Proof.
  induction s as [|c s IH]; simpl; [done|].
  destruct (isspace c) eqn:Hc; simpl; [done|]. by rewrite Hc, IH.
Qed.

Lemma take_word_word (w : string) : no_space w = true -> take_word w = w.
Proof.
  induction w as [|c w IH]; simpl; [done|].
  destruct (isspace c); simpl; [done|]. intros Hw. by rewrite IH.
Qed.

Lemma take_word_app (w : string) c rest :
  no_space w = true -> isspace c = true ->
  take_word (w +:+ String c rest) = w.
Proof.
  intros Hw Hc. induction w as [|c0 w IH]; simpl in *; [by rewrite Hc|].
  destruct (isspace c0); simpl in *; [done|]. by rewrite IH.
Qed.

Lemma split_first_word_app (w rest : string) :
  is_word w -> split_first (w +:+ rest) = Some (take_word (w +:+ rest)).
Proof.
  intros [Hne Hw]. destruct w as [|c w]; [done|]. simpl in Hw.
  unfold split_first. simpl.
  destruct (isspace c) eqn:Hc; [done|]. simpl. by rewrite Hc.
Qed.

(** X4.  [s.split()[0]] is the first word of [s]: for a word followed by
    whitespace and anything else it is that word, for a word alone it is
    the word, and whatever it returns is a word (not empty, free of
    whitespace).  So an entry made from a line whose event group is a
    word and a qualifier has the word as its event, and an event group
    that starts with a word beginning with DISCONNECT makes a disconnect
    entry. *)
Theorem X4_split_first_is_first_word :
  (forall (w rest : string) (c : Ascii.ascii),
      is_word w -> isspace c = true ->
      split_first (w +:+ String c rest) = Some w)
  /\ (forall w : string, is_word w -> split_first w = Some w)
  /\ (forall s w : string, split_first s = Some w -> is_word w)
  /\ (forall (a : args) (peer_map : gmap string string) (g : groups)
             (e : entry) (w q : string) (c : Ascii.ascii),
         g_event g = w +:+ String c q -> is_word w -> isspace c = true ->
         process_line a peer_map (Matched g) = Append e ->
         event e = w
         /\ (String.prefix "DISCONNECT" w = true ->
             is_disconnect_event e = true)).
Proof.
  assert (forall (w rest : string) (c : Ascii.ascii),
             is_word w -> isspace c = true ->
             split_first (w +:+ String c rest) = Some w) as Hword.
  { intros w rest c Hw Hc. rewrite split_first_word_app by done.
    f_equal. apply take_word_app; [apply Hw | done]. }
  split; [exact Hword|]. split; [|split].
  - intros w [Hne Hw]. destruct w as [|c w]; [done|].
    pose proof (take_word_word _ Hw) as Htake.
    unfold split_first. simpl in *.
    destruct (isspace c) eqn:Hc; [done|]. simpl. rewrite Hc. by f_equal.
  - intros s w. unfold split_first.
    destruct (lstrip s) as [|c s'] eqn:Hs; [done|].
    intros [= <-]. pose proof (lstrip_head s c s' Hs) as Hc.
    split.
    + simpl. by rewrite Hc.
    + apply (take_word_no_space (String c s')).
  - intros a peer_map g e w q c Hg Hw Hc. simpl.
    destruct (g_timestamp g); [|done].
    destruct (negb (in_date_range a d)); [done|].
    destruct (_ && _); [done|].
    rewrite Hg, (Hword w q c Hw Hc). intros [= <-]. simpl.
    split; [done|]. unfold is_disconnect_event. done.
Qed.

Lemma X4_split_first_is_first_word_witness :
  is_word "DISCONNECT"
  /\ split_first "DISCONNECT (Timeout)" = Some "DISCONNECT".
Proof.
  assert (is_word "DISCONNECT") as Hw by (split; [discriminate | reflexivity]).
  split; [exact Hw|].
  exact (proj1 X4_split_first_is_first_word "DISCONNECT" "(Timeout)"
           (Ascii.ascii_of_nat 32) Hw eq_refl).
Defined.

(** ** The date range of a run *)

(** X5.  A range that [parse_arguments] returns is never inverted: its
    start date is not after its end date (a single day is accepted).
    When the start date is given, the number of days plays no part. *)
Theorem X5_date_range_is_ordered :
  (forall (today : date) (start_date end_date : date_arg) (days : Z)
          (r : date_range),
      parse_arguments today start_date end_date days = Returned r ->
      start_date_dt r <= end_date_dt r)
  /\ (forall (today d : date) (end_date : date_arg) (days days' : Z),
         parse_arguments today (Given d) end_date days
         = parse_arguments today (Given d) end_date days')
  /\ (forall (today d : date) (days : Z),
         parse_arguments today (Given d) (Given d) days
         = Returned {| start_date_dt := d; end_date_dt := d |}).
Proof.
  split; [|split].
  - intros today start_date end_date days r.
    unfold parse_arguments, date_minus_days.
    destruct end_date as [|e|]; [| |done];
      (destruct start_date as [|s|]; [| |done]);
      repeat (match goal with
              | |- context [if ?b then _ else _] => destruct b eqn:?
              end; simpl; try done);
      intros [= <-]; simpl; lia.
  - intros today d end_date days days'. unfold parse_arguments.
    by destruct end_date.
  - intros today d days. unfold parse_arguments. by rewrite Z.ltb_irrefl.
Qed.

Lemma X5_date_range_is_ordered_witness :
  parse_arguments Sample.jan1 (Given (Sample.jan1 + 3))
                  (Given (Sample.jan1 + 9)) 3
  = Returned {| start_date_dt := Sample.jan1 + 3;
                end_date_dt := Sample.jan1 + 9 |}
  /\ Sample.jan1 + 3 <= Sample.jan1 + 9.
Proof.
  split; [reflexivity|].
  exact (proj1 X5_date_range_is_ordered Sample.jan1
           (Given (Sample.jan1 + 3)) (Given (Sample.jan1 + 9)) 3
           {| start_date_dt := Sample.jan1 + 3;
              end_date_dt := Sample.jan1 + 9 |} eq_refl).
Defined.

(** X6.  Without a start date, a number of days that is zero or negative
    never gives a range: the computed start is after the end, and the run
    exits with status 1 whenever that start is still a date of the
    calendar. *)
Theorem X6_nonpositive_days_exit :
  (forall (today : date) (end_date : date_arg) (days : Z) (r : date_range),
      days <= 0 ->
      parse_arguments today Absent end_date days <> Returned r)
  /\ (forall (today : date) (end_date : date_arg) (end_dt : date) (days : Z),
         (end_date = Absent /\ end_dt = today) \/ end_date = Given end_dt ->
         days <= 0 ->
         MINORDINAL <= end_dt -> end_dt - (days - 1) <= MAXORDINAL ->
         parse_arguments today Absent end_date days = SysExit 1).
Proof.
  split.
  - intros today end_date days r Hdays.
    unfold parse_arguments, date_minus_days.
    destruct end_date as [|e|]; [| |done];
      repeat (match goal with
              | |- context [if ?b then _ else _] => destruct b eqn:?
              end; simpl; try done);
      lia.
  - intros today end_date end_dt days Hend Hdays Hmin Hmax.
    assert ((days - 1 <? - MAX_DELTA_DAYS) = false) as H1
      by (unfold MAX_DELTA_DAYS, MINORDINAL, MAXORDINAL in *; lia).
    assert ((MAX_DELTA_DAYS <? days - 1) = false) as H2
      by (unfold MAX_DELTA_DAYS in *; lia).
    assert ((MINORDINAL <=? end_dt - (days - 1)) = true) as H3 by lia.
    assert ((end_dt - (days - 1) <=? MAXORDINAL) = true) as H4 by lia.
    assert ((end_dt <? end_dt - (days - 1)) = true) as H5 by lia.
    unfold parse_arguments, date_minus_days.
    destruct Hend as [[-> ->]| ->]; rewrite H1, H2, H3, H4; simpl;
      by rewrite H5.
Qed.

Lemma X6_nonpositive_days_exit_witness :
  0 <= 0
  /\ MINORDINAL <= Sample.jan1
  /\ Sample.jan1 - (0 - 1) <= MAXORDINAL
  /\ parse_arguments Sample.jan1 Absent Absent 0 = SysExit 1.
Proof.
  assert (MINORDINAL <= Sample.jan1) as H1 by (vm_compute; discriminate).
  assert (Sample.jan1 - (0 - 1) <= MAXORDINAL) as H2
    by (vm_compute; discriminate).
  split; [lia|]. split; [exact H1|]. split; [exact H2|].
  apply (proj2 X6_nonpositive_days_exit Sample.jan1 Absent Sample.jan1 0);
    [by left | lia | exact H1 | exact H2].
Defined.

(** ** The sort keeps ties in reading order *)

Section Stability.

Context {A : Type} (key : A -> Z).

Let before (x y : A) : bool := key x <=? key y.

Lemma insert_sorted_at (c : Z) (x : A) (l : list A) :
  filter (fun y => key y = c) (insert_sorted before x l)
  = filter (fun y => key y = c) (x :: l).
Proof.
  induction l as [|y l IH]; simpl; [done|].
  unfold before at 1. destruct (key x <=? key y) eqn:Hxy; [done|].
  rewrite filter_cons, IH, !filter_cons.
  destruct (decide (key y = c)), (decide (key x = c)); try done. lia.
Qed.

Lemma stable_sort_at (c : Z) (l : list A) :
  filter (fun y => key y = c) (stable_sort before l)
  = filter (fun y => key y = c) l.
Proof.
  induction l as [|x l IH]; [done|].
  unfold stable_sort in *. simpl.
  by rewrite insert_sorted_at, !filter_cons, IH.
Qed.

Lemma stable_sort_sorted_id (l : list A) :
  StronglySorted (fun x y => key x <= key y) l -> stable_sort before l = l.
Proof.
  induction 1 as [|x l Hl IH Hx]; [done|].
  unfold stable_sort in *. simpl. rewrite IH.
  destruct l as [|y l]; simpl; [done|].
  apply Forall_cons in Hx as [Hxy _].
  unfold before. by rewrite (proj2 (Z.leb_le _ _) Hxy).
Qed.

End Stability.

(** X7.  The sort loses and invents nothing and is stable: the sorted
    stream is a rearrangement of the entries read, and the entries of one
    instant stay in the order they were read in (so a connect and a
    disconnect logged in the same second are handled in file order).  A
    stream that is chronological already is left as it is. *)
Theorem X7_sort_entries_is_stable :
  (forall l : list entry, sort_entries l ≡ₚ l)
  /\ (forall (l : list entry) (c : Z),
         at_instant c (sort_entries l) = at_instant c l)
  /\ (forall l : list entry, chronological l -> sort_entries l = l).
Proof.
  split; [|split].
  - apply sort_entries_Permutation.
  - intros l c.
    apply (stable_sort_at (fun e => utc_seconds (timestamp e)) c l).
  - intros l Hl.
    apply (stable_sort_sorted_id (fun e => utc_seconds (timestamp e)) l Hl).
Qed.

Lemma X7_sort_entries_is_stable_witness :
  chronological [Sample.c1; Sample.d1]
  /\ sort_entries [Sample.c1; Sample.d1] = [Sample.c1; Sample.d1].
Proof.
  assert (chronological [Sample.c1; Sample.d1]) as H.
  { change [Sample.c1; Sample.d1]
      with (sort_entries [Sample.d1; Sample.c1]).
    apply sort_entries_chronological. }
  split; [exact H|].
  exact (proj2 (proj2 X7_sort_entries_is_stable) _ H).
Defined.

(** ** Lines the pattern does not match *)

Lemma read_lines_cons (a : args) (peer_map : gmap string string)
    (l : line) (ls : list line) (r : reader) :
  read_lines a peer_map (l :: ls) r
  = match process_line a peer_map l with
    | Skip => read_lines a peer_map ls r
    | SkipWarn => read_lines a peer_map ls (print Warning_skipping_line r)
    | Append e => read_lines a peer_map ls (add_entry e r)
    | Abort => (r, false)
    end.
Proof. reflexivity. Qed.

Lemma read_lines_matched (a : args) (peer_map : gmap string string)
    (ls : list line) (r : reader) :
  read_lines a peer_map (filter (fun l => is_matched l = true) ls) r
  = read_lines a peer_map ls r.
Proof.
  revert r. induction ls as [|l ls IH]; intros r; [done|].
  rewrite filter_cons. destruct l as [|g].
  - rewrite decide_False by done. rewrite read_lines_cons. apply IH.
  - rewrite decide_True by done. rewrite !read_lines_cons.
    destruct (process_line a peer_map (Matched g)); try done; apply IH.
Qed.

Lemma stable_sort_fmap {A} (before : A -> A -> bool) (g : A -> A)
    (l : list A) :
  (forall x y, before (g x) (g y) = before x y) ->
  stable_sort before (g <$> l) = g <$> stable_sort before l.
Proof.
  intros Hg. induction l as [|x l IH]; [done|].
  unfold stable_sort in *. rewrite fmap_cons. cbn [foldr]. rewrite IH.
  generalize (foldr (insert_sorted before) [] l). intros k.
  induction k as [|y k IHk]; [done|].
  rewrite fmap_cons. cbn [insert_sorted].
  rewrite Hg. destruct (before x y); [done|].
  by rewrite IHk, !fmap_cons.
Qed.

(** X8.  Lines that the pattern does not match are skipped without a
    trace: a file gives the same entries, counts and messages with and
    without them, and so does the whole of [process_logs]. *)
Theorem X8_unmatched_lines_are_ignored :
  (forall (a : args) (peer_map : gmap string string) (f : log_file)
          (r : reader),
      read_file a peer_map (matched_lines f) r = read_file a peer_map f r)
  /\ (forall (a : args) (peer_map : gmap string string)
             (files : list log_file),
         process_logs a peer_map (matched_lines <$> files)
         = process_logs a peer_map files).
Proof.
  assert (forall a peer_map f r,
             read_file a peer_map (matched_lines f) r
             = read_file a peer_map f r) as Hfile.
  { intros a peer_map f r. unfold read_file, matched_lines. simpl.
    by rewrite read_lines_matched. }
  split; [exact Hfile|].
  intros a peer_map files. unfold process_logs, sorted_reverse.
  rewrite stable_sort_fmap by done.
  set (fs := stable_sort _ files). set (r0 := {| log_entries := [] |}).
  assert (read_files a peer_map (matched_lines <$> fs) r0
          = read_files a peer_map fs r0) as ->; [|done].
  generalize r0. clear r0.
  induction fs as [|f fs IH]; intros r0; simpl; [done|].
  by rewrite Hfile, IH.
Qed.

(** ** The report is limited to the selection *)

Lemma process_line_in_range (a : args) (peer_map : gmap string string)
    (l : line) (e : entry) :
  process_line a peer_map l = Append e ->
  in_date_range a (timestamp e) = true.
Proof.
  destruct l as [|g]; [done|]. simpl.
  destruct (g_timestamp g) as [t|]; [|done].
  destruct (in_date_range a t) eqn:Hin; simpl; [|done].
  destruct (_ && _); [done|].
  destruct (split_first (g_event g)); [|done].
  by intros [= <-].
Qed.

Lemma calculate_sessions_all_named (u : string) (l : list entry)
    (s : appended) :
  Forall (fun e => peer_name e = u) l ->
  s ∈ calculate_sessions l -> PeerName (row s) = u.
Proof.
  intros Hl. revert s.
  apply (calculate_sessions_invariant l
           (fun _ st =>
              current_name st = u
              \/ (current_name st = "Unknown" /\ status st = disconnected))
           (fun s => PeerName (row s) = u)).
  - intros _. by right.
  - intros st e He Hst. rewrite Forall_forall in Hl.
    destruct (transition_named_by u st e (Hl e He) Hst) as [H1 H2].
    split; [by left | done].
  - intros key st t [Hst|[_ Hst]] Hc; [done | congruence].
Qed.

(** X9.  Every row that [process_logs] returns belongs to the selection:
    the session starts at the timestamp of a log line whose own calendar
    date is in the date range, and with a peer selected the row carries
    that peer's name. *)
Theorem X9_rows_belong_to_the_selection :
  forall (a : args) (peer_map : gmap string string) (files : list log_file)
         (sessions : list session) (r : session),
    fst (process_logs a peer_map files) = Returned sessions ->
    r ∈ sessions ->
    (exists t, SessionStart r = isoformat t /\ in_date_range a t = true)
    /\ (user a <> "all" -> PeerName r = user a).
Proof.
  intros a peer_map files sessions r. unfold process_logs.
  set (r0 := {| log_entries := [] |}).
  assert (Forall (fun e => in_date_range a (timestamp e) = true
                           /\ (user a = "all" \/ peer_name e = user a))
                 (log_entries
                    (read_files a peer_map (sorted_reverse files) r0)))
    as Hread.
  { apply read_files_Forall; [|constructor].
    intros l e He. split; [by eapply process_line_in_range|].
    by destruct (process_line_Append a peer_map l e He)
      as (g & _ & _ & _ & _ & Huser). }
  destruct (processed_files _); [done|].
  destruct (log_entries _) as [|e0 es] eqn:Hentries.
  { intros [= <-] Hr. by apply elem_of_nil in Hr. }
  rewrite <- Hentries in *. clear Hentries e0 es.
  rewrite <- sort_entries_Permutation in Hread.
  set (l := sort_entries _) in *. simpl.
  intros [= <-] Hr. apply list_elem_of_fmap in Hr as (s & -> & Hs).
  rewrite Forall_forall in Hread.
  split.
  - destruct (calculate_sessions_started_by l s Hs)
      as (c & [Hc _] & _ & _ & Hstart & _).
    exists (timestamp c). split; [done|]. by apply Hread.
  - intros Hall. apply (calculate_sessions_all_named (user a) l s); [|done].
    apply Forall_forall. intros e He.
    destruct (Hread e He) as [_ [?|?]]; done.
Qed.

Lemma X9_rows_belong_to_the_selection_witness :
  fst (process_logs {| user := "Bob"; range := range Sample.all_january |}
                    ∅ [Sample.good_file])
  = Returned [ {| PeerName := "Bob";
                 SessionStart := "2024-01-02T09:00:00+08:00";
                 SessionEnd := "Ongoing (as of 2024-01-02T09:00:00+08:00)";
                 Duration := "00:00:00 (up to last log)";
                 EndpointIP := "203.0.113.9" |} ]
  /\ PeerName {| PeerName := "Bob";
                 SessionStart := "2024-01-02T09:00:00+08:00";
                 SessionEnd := "Ongoing (as of 2024-01-02T09:00:00+08:00)";
                 Duration := "00:00:00 (up to last log)";
                 EndpointIP := "203.0.113.9" |} = "Bob".
Proof.
  set (bob := {| PeerName := "Bob";
                 SessionStart := "2024-01-02T09:00:00+08:00";
                 SessionEnd := "Ongoing (as of 2024-01-02T09:00:00+08:00)";
                 Duration := "00:00:00 (up to last log)";
                 EndpointIP := "203.0.113.9" |}).
  assert (fst (process_logs
                 {| user := "Bob"; range := range Sample.all_january |}
                 ∅ [Sample.good_file])
          = Returned [bob]) as Hrun by (vm_compute; reflexivity).
  split; [exact Hrun|].
  refine (proj2 (X9_rows_belong_to_the_selection _ _ _ _ bob Hrun _) _).
  - apply list_elem_of_here.
  - discriminate.
Defined.

(** ** Durations are not negative *)

Lemma transition_duration (st : peer_state) (e : entry) :
  Forall (fun s => Duration (row s) = duration_cell s)
         (snd (transition st e)).
Proof.
  unfold transition.
  destruct (is_connect_event e), (is_disconnect_event e),
    (status (adopt_name st e)); simpl; repeat constructor.
Qed.

Lemma reconstruct_Forall (Q : appended -> Prop) (l : list entry)
    (ps : peer_states) :
  (forall st e, Forall Q (snd (transition st e))) ->
  Forall Q (snd (reconstruct ps l)).
Proof.
  intros HQ. revert ps. induction l as [|e l IH]; intros ps; simpl;
    [constructor|].
  destruct (step_same ps e) as [_ Hout]. specialize (HQ (peer_view ps (peer_key e)) e).
  rewrite <- Hout in HQ.
  destruct (step ps e) as [ps1 out]. specialize (IH ps1).
  destruct (reconstruct ps1 l) as [ps2 outs]. simpl in *.
  by apply Forall_app.
Qed.

Lemma ongoing_sessions_duration (t : option datetime) (ps : peer_states) :
  Forall (fun s => Duration (row s) = duration_cell s +:+ " (up to last log)")
         (ongoing_sessions t ps).
Proof.
  induction ps as [|[k st] ps IH]; simpl; [constructor|].
  destruct (status st); [done|]. by constructor.
Qed.

(** X10.  On a chronological stream, which is what the sort hands over,
    no session has a negative duration.  A completed session starts no
    later than it ends and its duration cell renders the time between
    the two; an open session starts no later than the last entry of the
    stream and its duration cell renders the time up to that entry,
    followed by the words "(up to last log)". *)
Theorem X10_durations_are_not_negative :
  forall l : list entry,
    chronological l ->
    (forall s, s ∈ completed_sessions l ->
       exists t0 t1,
         at_start_time s = Some t0 /\ at_end_time s = Some t1
         /\ 0 <= dt_sub t1 t0
         /\ Duration (row s) = format_duration (Some (dt_sub t1 t0)))
    /\ (forall s,
          s ∈ ongoing_sessions (last_log_time l) (final_states l) ->
          exists t0 t1,
            at_start_time s = Some t0 /\ at_end_time s = Some t1
            /\ last_log_time l = Some t1
            /\ 0 <= dt_sub t1 t0
            /\ Duration (row s)
               = format_duration (Some (dt_sub t1 t0))
                 +:+ " (up to last log)").
Proof.
  intros l Hl. split.
  - intros s Hs.
    assert (s ∈ sessions_of (at_key s) (completed_sessions l)) as Hk
      by (unfold sessions_of; by apply list_elem_of_filter).
    destruct (timeline_pairwise _ _ (peer_cells_sorted l (at_key s) Hl))
      as (_ & Hle & _).
    specialize (Hle s Hk).
    pose proof (reconstruct_Forall _ l [] transition_duration) as Hdur.
    rewrite Forall_forall in Hdur. specialize (Hdur s Hs).
    unfold duration_cell in Hdur.
    destruct (at_start_time s) as [t0|]; [|done].
    destruct (at_end_time s) as [t1|]; [|done].
    exists t0, t1. unfold known_le, dt_le in Hle. unfold dt_sub at 1.
    repeat split; [lia | done].
  - intros s Hs.
    assert (s ∈ calculate_sessions l) as Hin
      by (rewrite calculate_sessions_split, elem_of_app; by right).
    destruct (calculate_sessions_started_by l s Hin)
      as (c & [Hc _] & _ & Hstart & _).
    pose proof (ongoing_sessions_end (last_log_time l) (final_states l))
      as Hend.
    pose proof (ongoing_sessions_duration (last_log_time l) (final_states l))
      as Hdur.
    rewrite Forall_forall in Hend, Hdur.
    destruct (Hend s Hs) as [Hend' _]. specialize (Hdur s Hs).
    unfold duration_cell in Hdur. rewrite Hstart, Hend' in Hdur.
    destruct (last l) as [e_last|] eqn:Hlast.
    + pose proof (chronological_last l e_last Hl Hlast) as Hall.
      rewrite Forall_forall in Hall. specialize (Hall c Hc).
      unfold last_log_time in *. rewrite Hlast in *. simpl in *.
      exists (timestamp c), (timestamp e_last).
      unfold dt_le in Hall. unfold dt_sub at 1.
      repeat split; [done | done | lia | done].
    + apply last_None in Hlast. subst l. by apply elem_of_nil in Hc.
Qed.

Lemma X10_durations_are_not_negative_witness :
  chronological Sample.stream
  /\ Sample.session_K1 ∈ completed_sessions Sample.stream
  /\ exists t0 t1,
      at_start_time Sample.session_K1 = Some t0
      /\ at_end_time Sample.session_K1 = Some t1
      /\ 0 <= dt_sub t1 t0
      /\ Duration (row Sample.session_K1)
         = format_duration (Some (dt_sub t1 t0)).
Proof.
  assert (chronological Sample.stream) as Hsorted.
  { change Sample.stream with (sort_entries Sample.stream).
    apply sort_entries_chronological. }
  assert (Sample.session_K1 ∈ completed_sessions Sample.stream) as Hs
    by (vm_compute; apply list_elem_of_here).
  split; [exact Hsorted|]. split; [exact Hs|].
  exact (proj1 (X10_durations_are_not_negative Sample.stream Hsorted)
           Sample.session_K1 Hs).
Defined.

(** ** Peers do not interfere *)

(** X11.  What the loop does for a peer depends on that peer's entries
    alone: two streams with the same entries for a key give that key the
    same completed sessions and the same final state, whatever the other
    peers do.  The open session of the key can differ only through the
    last timestamp of the whole stream; when that is the same too, all
    sessions of the key are the same. *)
Theorem X11_peers_do_not_interfere :
  forall (l l' : list entry) (key : string),
    for_peer key l = for_peer key l' ->
    sessions_of key (completed_sessions l)
    = sessions_of key (completed_sessions l')
    /\ peer_view (final_states l) key = peer_view (final_states l') key
    /\ (last_log_time l = last_log_time l' ->
        sessions_of key (calculate_sessions l)
        = sessions_of key (calculate_sessions l')).
Proof.
  intros l l' key Hsame.
  destruct (reconstruct_peer key l []) as [Hview Hout].
  destruct (reconstruct_peer key l' []) as [Hview' Hout'].
  fold (final_states l) in Hview. fold (completed_sessions l) in Hout.
  fold (final_states l') in Hview'. fold (completed_sessions l') in Hout'.
  rewrite Hsame in Hview, Hout. rewrite <- Hview' in Hview.
  rewrite <- Hout' in Hout.
  split; [done|]. split; [done|].
  intros Hlast. rewrite !calculate_sessions_split.
  unfold sessions_of in *. rewrite !filter_app, Hout. f_equal.
  pose proof (ongoing_sessions_peer (last_log_time l) (final_states l) key
                (final_states_NoDup l)) as H1.
  pose proof (ongoing_sessions_peer (last_log_time l') (final_states l') key
                (final_states_NoDup l')) as H2.
  unfold sessions_of in H1, H2. by rewrite H1, H2, Hview, Hlast.
Qed.

Lemma X11_peers_do_not_interfere_witness :
  for_peer "K1" Sample.stream = for_peer "K1" Demo.without_K2
  /\ last_log_time Sample.stream = last_log_time Demo.without_K2
  /\ sessions_of "K1" (calculate_sessions Sample.stream)
     = sessions_of "K1" (calculate_sessions Demo.without_K2).
Proof.
  split; [reflexivity|]. split; [reflexivity|].
  exact (proj2 (proj2 (X11_peers_do_not_interfere Sample.stream
                         Demo.without_K2 "K1" eq_refl)) eq_refl).
Defined.

(** ** Repeated events *)

(** X12.  Repeated events collapse.  When the entries of a peer are a
    connect, further connects, a disconnect and further disconnects, the
    peer gets exactly one session: it starts at the first connect, with
    that connect's endpoint (later connects, with other endpoints, change
    neither), it ends at the first disconnect, and the peer is left
    disconnected. *)
Theorem X12_repeated_events_collapse :
  forall (l : list entry) (key : string) (c d : entry)
         (cs ds : list entry),
    is_connect_event c = true ->
    Forall (fun c' => is_connect_event c' = true) cs ->
    is_disconnect_event d = true ->
    Forall (fun d' => is_disconnect_event d' = true) ds ->
    for_peer key l = c :: cs ++ d :: ds ->
    status (peer_view (final_states l) key) = disconnected
    /\ exists s,
        sessions_of key (calculate_sessions l) = [s]
        /\ at_start_time s = Some (timestamp c)
        /\ at_end_time s = Some (timestamp d)
        /\ SessionStart (row s) = isoformat (timestamp c)
        /\ SessionEnd (row s) = isoformat (timestamp d)
        /\ EndpointIP (row s) = ip_or_na (Some (endpoint c)).
Proof.
  intros l key c d cs ds Hc Hcs Hd Hds Hl.
  destruct (reconstruct_peer key l []) as [Hview Hout].
  fold (final_states l) in Hview. fold (completed_sessions l) in Hout.
  rewrite Hl in Hview, Hout.
  change (peer_view [] key) with default_state in Hview, Hout.
  cbn [run_peer] in Hview, Hout.
  rewrite (transition_open default_state c Hc eq_refl) in Hview, Hout.
  set (st1 := open_session (adopt_name default_state c) c) in *.
  destruct (open_session_fields (adopt_name default_state c) c)
    as (Ho1 & Ho2 & Ho3). fold st1 in Ho1, Ho2, Ho3.
  rewrite run_peer_app in Hview, Hout.
  destruct (run_peer_connects_connected cs st1 Ho1 Hcs)
    as (Hc1 & Hc2 & Hc3 & Hc4).
  destruct (run_peer st1 cs) as [st2 out2]. simpl in Hc1, Hc2, Hc3, Hc4.
  subst out2. cbn [run_peer] in Hview, Hout.
  rewrite (transition_close st2 d Hd Hc2) in Hview, Hout.
  destruct (run_peer_disconnects ds (close_session (adopt_name st2 d))
              eq_refl Hds) as (Hd1 & Hd2 & _).
  destruct (run_peer (close_session (adopt_name st2 d)) ds) as [st3 out3].
  simpl in Hd1, Hd2, Hview, Hout. subst out3.
  assert (status (peer_view (final_states l) key) = disconnected) as Hst
    by (by rewrite Hview).
  split; [exact Hst|].
  eexists. split.
  - rewrite calculate_sessions_split. unfold sessions_of in *.
    rewrite filter_app, Hout.
    pose proof (ongoing_sessions_peer (last_log_time l) (final_states l) key
                  (final_states_NoDup l)) as Hong.
    unfold sessions_of in Hong. rewrite Hong, Hst. reflexivity.
  - simpl. unfold isoformat_or_na.
    by rewrite adopt_name_start_time, adopt_name_start_ip, Hc3, Hc4, Ho2, Ho3.
Qed.

Lemma X12_repeated_events_collapse_witness :
  for_peer "K1" Demo.burst
  = Sample.c1 :: [Demo.roam] ++ Sample.d1 :: [Demo.lost_again]
  /\ (SessionStart ∘ row) <$> sessions_of "K1" (calculate_sessions Demo.burst)
     = [isoformat (timestamp Sample.c1)]
  /\ (EndpointIP ∘ row) <$> sessions_of "K1" (calculate_sessions Demo.burst)
     = ["198.51.100.7"].
Proof.
  split; [reflexivity|].
  destruct (X12_repeated_events_collapse Demo.burst "K1" Sample.c1 Sample.d1
              [Demo.roam] [Demo.lost_again])
    as (_ & s & Hs & _ & _ & Hstart & _ & Hip);
    [reflexivity | by repeat constructor | reflexivity
    | by repeat constructor | reflexivity |].
  rewrite Hs. simpl. by rewrite Hstart, Hip.
Defined.

(** ** How many sessions a peer can get *)

Lemma transition_count (st : peer_state) (e : entry) :
  (length (snd (transition st e))
   + length (open_start (fst (transition st e)))
   <= length (open_start st)
      + (if is_connect_event e then 1 else 0))%nat
  /\ (length (snd (transition st e))
      <= (if is_disconnect_event e then 1 else 0))%nat.
Proof.
  unfold open_start.
  destruct (is_connect_event e) eqn:Hc;
    [|destruct (is_disconnect_event e) eqn:Hd];
    (destruct (status st) eqn:Hs).
  - rewrite (transition_open st e Hc Hs). simpl.
    destruct (open_session_fields (adopt_name st e) e) as (-> & _ & _).
    simpl. split; lia.
  - rewrite (transition_reconnect st e Hc Hs). simpl.
    rewrite adopt_name_status, Hs. simpl. split; lia.
  - rewrite (transition_redundant st e Hd Hs). simpl.
    rewrite adopt_name_status, Hs. simpl. split; lia.
  - rewrite (transition_close st e Hd Hs). simpl. split; lia.
  - rewrite (transition_other st e Hc Hd). simpl.
    rewrite adopt_name_status, Hs. simpl. split; lia.
  - rewrite (transition_other st e Hc Hd). simpl.
    rewrite adopt_name_status, Hs. simpl. split; lia.
Qed.

Lemma run_peer_count (p : list entry) (st : peer_state) :
  (length (snd (run_peer st p)) + length (open_start (fst (run_peer st p)))
   <= length (open_start st)
      + length (filter (fun e => is_connect_event e = true) p))%nat
  /\ (length (snd (run_peer st p))
      <= length (filter (fun e => is_disconnect_event e = true) p))%nat.
Proof.
  revert st. induction p as [|e p IH]; intros st; simpl; [split; lia|].
  destruct (transition_count st e) as [H1 H2].
  destruct (transition st e) as [st1 out]. simpl in H1, H2.
  destruct (IH st1) as [H3 H4].
  destruct (run_peer st1 p) as [st2 outs]. simpl in *.
  rewrite !filter_cons, length_app.
  destruct (is_connect_event e), (is_disconnect_event e); simpl;
    repeat case_decide; simpl; try done; split; lia.
Qed.

(** X13.  A peer gets at most one session per connect entry of its own,
    open session included, and at most one completed session per
    disconnect entry of its own; a peer without a connect entry gets no
    session. *)
Theorem X13_sessions_are_bounded_by_events :
  forall (l : list entry) (key : string),
    (length (sessions_of key (calculate_sessions l))
     <= length (filter (fun e => is_connect_event e = true)
                       (for_peer key l)))%nat
    /\ (length (sessions_of key (completed_sessions l))
        <= length (filter (fun e => is_disconnect_event e = true)
                          (for_peer key l)))%nat.
Proof.
  intros l key.
  destruct (reconstruct_peer key l []) as [Hview Hout].
  fold (final_states l) in Hview. fold (completed_sessions l) in Hout.
  destruct (run_peer_count (for_peer key l) (peer_view [] key)) as [H1 H2].
  rewrite <- Hview, <- Hout in H1. rewrite <- Hout in H2.
  split; [|exact H2].
  rewrite calculate_sessions_split. unfold sessions_of in *.
  rewrite filter_app, length_app.
  pose proof (ongoing_sessions_peer (last_log_time l) (final_states l) key
                (final_states_NoDup l)) as Hong.
  unfold sessions_of in Hong. rewrite Hong.
  unfold open_start in H1.
  destruct (status (peer_view (final_states l) key)); simpl in *; lia.
Qed.

(** ** The report file *)





(** ** The order of the files *)

Lemma string_leb_trans (s1 s2 s3 : string) :
  String.leb s1 s2 = true -> String.leb s2 s3 = true ->
  String.leb s1 s3 = true.
Proof.
  unfold String.leb. revert s2 s3.
  induction s1 as [|a s1 IH]; intros [|b s2] [|c s3]; simpl; try done.
  unfold Ascii.compare.
  destruct (N.compare_spec (Ascii.N_of_ascii a) (Ascii.N_of_ascii b)),
    (N.compare_spec (Ascii.N_of_ascii b) (Ascii.N_of_ascii c)),
    (N.compare_spec (Ascii.N_of_ascii a) (Ascii.N_of_ascii c));
    try done; try lia.
  apply IH.
Qed.

Lemma sorted_reverse_Permutation (files : list log_file) :
  sorted_reverse files ≡ₚ files.
Proof. apply stable_sort_Permutation. Qed.

Lemma sorted_reverse_sorted (files : list log_file) :
  StronglySorted path_ge (sorted_reverse files).
Proof.
  apply stable_sort_sorted.
  - done.
  - intros f g. apply String.leb_total.
  - intros f g h Hfg Hgh. unfold path_ge in *.
    by apply (string_leb_trans _ (path g)).
Qed.

Lemma NoDup_fmap_eq {A B} (f : A -> B) (l : list A) (x y : A) :
  NoDup (f <$> l) -> x ∈ l -> y ∈ l -> f x = f y -> x = y.
Proof.
  induction l as [|z l IH]; intros Hnd Hx Hy Hf;
    [by apply elem_of_nil in Hx|].
  rewrite fmap_cons in Hnd. apply NoDup_cons in Hnd as [Hz Hnd].
  apply elem_of_cons in Hx as [->|Hx]; apply elem_of_cons in Hy as [->|Hy].
  - done.
  - destruct Hz. rewrite Hf. by apply list_elem_of_fmap_2.
  - destruct Hz. rewrite <- Hf. by apply list_elem_of_fmap_2.
  - by apply IH.
Qed.

(** X15.  The files are read in descending order of their paths, each
    once, and with distinct paths (as a directory has them) the result of
    [process_logs], messages included, does not depend on the order in
    which the directory listing gave the files. *)
Theorem X15_file_order_does_not_matter :
  (forall files : list log_file,
      sorted_reverse files ≡ₚ files
      /\ StronglySorted path_ge (sorted_reverse files))
  /\ (forall (a : args) (peer_map : gmap string string)
             (files files' : list log_file),
         files ≡ₚ files' -> NoDup (path <$> files) ->
         process_logs a peer_map files = process_logs a peer_map files').
Proof.
  split.
  - intros files. split;
      [apply sorted_reverse_Permutation | apply sorted_reverse_sorted].
  - intros a peer_map files files' Hperm Hnd.
    assert (sorted_reverse files = sorted_reverse files') as Hsame.
    { apply (StronglySorted_unique_strong path_ge).
      - intros f g Hf Hg Hfg Hgf.
        rewrite sorted_reverse_Permutation in Hf.
        rewrite sorted_reverse_Permutation, <- Hperm in Hg.
        apply (NoDup_fmap_eq path files); [done|done|done|].
        by apply String.leb_antisym.
      - apply sorted_reverse_sorted.
      - apply sorted_reverse_sorted.
      - by rewrite !sorted_reverse_Permutation. }
    unfold process_logs. by rewrite Hsame.
Qed.

Lemma X15_file_order_does_not_matter_witness :
  [Sample.good_file; Sample.broken_file]
  ≡ₚ [Sample.broken_file; Sample.good_file]
  /\ NoDup (path <$> [Sample.good_file; Sample.broken_file])
  /\ process_logs Sample.all_january ∅ [Sample.good_file; Sample.broken_file]
     = process_logs Sample.all_january ∅
                    [Sample.broken_file; Sample.good_file].
Proof.
  assert ([Sample.good_file; Sample.broken_file]
          ≡ₚ [Sample.broken_file; Sample.good_file]) as Hperm
    by apply Permutation_swap.
  assert (NoDup (path <$> [Sample.good_file; Sample.broken_file])) as Hnd.
  { apply NoDup_cons. split.
    - intros H%list_elem_of_singleton. discriminate H.
    - apply NoDup_singleton. }
  split; [exact Hperm|]. split; [exact Hnd|].
  exact (proj2 X15_file_order_does_not_matter Sample.all_january ∅ _ _
           Hperm Hnd).
Defined.

(** ** Timestamps that do not parse *)

Lemma read_lines_parsed (a : args) (peer_map : gmap string string)
    (ls : list line) (r1 r2 : reader) :
  same_reading r1 r2 ->
  same_reading
    (fst (read_lines a peer_map
            (filter (fun l => has_timestamp l = true) ls) r1))
    (fst (read_lines a peer_map ls r2))
  /\ snd (read_lines a peer_map
            (filter (fun l => has_timestamp l = true) ls) r1)
     = snd (read_lines a peer_map ls r2).
Proof.
  revert r1 r2. induction ls as [|l ls IH]; intros r1 r2 Hsame; [done|].
  rewrite filter_cons.
  destruct (decide (has_timestamp l = true)) as [Hts|Hts].
  - rewrite !read_lines_cons. destruct Hsame as [He Hp].
    destruct (process_line a peer_map l); try (by apply IH).
    + apply IH. split; simpl; [by rewrite He | done].
    + done.
  - rewrite read_lines_cons.
    destruct l as [|g]; [done|]. simpl in Hts |- *.
    destruct (g_timestamp g); [done|]. by apply IH.
Qed.

Lemma read_file_parsed (a : args) (peer_map : gmap string string)
    (f : log_file) (r1 r2 : reader) :
  same_reading r1 r2 ->
  same_reading (read_file a peer_map (parsed_lines f) r1)
               (read_file a peer_map f r2).
Proof.
  intros [He Hp]. unfold read_file, parsed_lines. simpl.
  destruct (read_lines_parsed a peer_map (lines f)
              (print (Processing_file (path f)) r1)
              (print (Processing_file (path f)) r2)) as [[He' Hp'] Hfin];
    [by split|].
  destruct (read_lines a peer_map (filter _ (lines f)) _) as [x1 fin1].
  destruct (read_lines a peer_map (lines f) _) as [x2 fin2].
  simpl in *. subst fin2.
  destruct (fin1 && negb (read_fails f)); split; simpl; congruence.
Qed.

Lemma read_files_parsed (a : args) (peer_map : gmap string string)
    (fs : list log_file) (r1 r2 : reader) :
  same_reading r1 r2 ->
  same_reading (read_files a peer_map (parsed_lines <$> fs) r1)
               (read_files a peer_map fs r2).
Proof.
  revert r1 r2. induction fs as [|f fs IH]; intros r1 r2 Hsame; [done|].
  rewrite fmap_cons. simpl. apply IH. by apply read_file_parsed.
Qed.

(** X16.  A line whose timestamp does not parse costs a warning and
    nothing else: the next lines of the file are still read, and the
    sessions that [process_logs] returns, or its exit, are the same as
    for the files without such lines. *)
Theorem X16_bad_timestamps_only_warn :
  (forall (a : args) (peer_map : gmap string string) (g : groups)
          (rest : list line) (r : reader),
      g_timestamp g = None ->
      read_lines a peer_map (Matched g :: rest) r
      = read_lines a peer_map rest (print Warning_skipping_line r))
  /\ (forall (a : args) (peer_map : gmap string string)
             (files : list log_file),
         fst (process_logs a peer_map (parsed_lines <$> files))
         = fst (process_logs a peer_map files)).
Proof.
  split.
  - intros a peer_map g rest r Hg. rewrite read_lines_cons. simpl.
    by rewrite Hg.
  - intros a peer_map files. unfold process_logs, sorted_reverse.
    rewrite stable_sort_fmap by done.
    set (fs := stable_sort _ files). set (r0 := {| log_entries := [] |}).
    assert (same_reading (read_files a peer_map (parsed_lines <$> fs) r0)
                         (read_files a peer_map fs r0)) as [He Hp].
    { by apply read_files_parsed. }
    rewrite He, Hp.
    destruct (processed_files (read_files a peer_map fs r0)); [done|].
    by destruct (log_entries (read_files a peer_map fs r0)).
Qed.

Lemma X16_bad_timestamps_only_warn_witness :
  g_timestamp {| g_timestamp := None; g_event := "CONNECT";
                 g_name_from_log := "Alice"; g_key := "K1";
                 g_ip := "198.51.100.7" |} = None
  /\ read_lines Sample.all_january ∅
       [Matched {| g_timestamp := None; g_event := "CONNECT";
                   g_name_from_log := "Alice"; g_key := "K1";
                   g_ip := "198.51.100.7" |};
        Sample.line_of Sample.c2] reader_empty
     = ({| log_entries := [Sample.c2]; processed_files := 0;
           printed := [Warning_skipping_line] |}, true).
Proof.
  split; [reflexivity|].
  rewrite (proj1 X16_bad_timestamps_only_warn Sample.all_january ∅
             {| g_timestamp := None; g_event := "CONNECT";
                g_name_from_log := "Alice"; g_key := "K1";
                g_ip := "198.51.100.7" |}
             [Sample.line_of Sample.c2] reader_empty eq_refl).
  reflexivity.
Defined.

(** ** Events of other kinds *)

Lemma transition_same_session (st1 st2 : peer_state) (e : entry) :
  same_session st1 st2 ->
  same_session (fst (transition st1 e)) (fst (transition st2 e))
  /\ boundaries <$> snd (transition st1 e)
     = boundaries <$> snd (transition st2 e).
Proof.
  intros (Hs & Ht & Hip). unfold same_session, boundaries.
  destruct (is_connect_event e) eqn:Hc;
    [|destruct (is_disconnect_event e) eqn:Hd];
    (destruct (status st1) eqn:Hs1; symmetry in Hs).
  - rewrite (transition_open st1 e Hc Hs1), (transition_open st2 e Hc Hs).
    simpl.
    destruct (open_session_fields (adopt_name st1 e) e) as (-> & -> & ->).
    by destruct (open_session_fields (adopt_name st2 e) e) as (-> & -> & ->).
  - rewrite (transition_reconnect st1 e Hc Hs1),
      (transition_reconnect st2 e Hc Hs). simpl.
    rewrite !adopt_name_status, !adopt_name_start_time, !adopt_name_start_ip.
    by rewrite Hs1, Hs, Ht, Hip.
  - rewrite (transition_redundant st1 e Hd Hs1),
      (transition_redundant st2 e Hd Hs). simpl.
    rewrite !adopt_name_status, !adopt_name_start_time, !adopt_name_start_ip.
    by rewrite Hs1, Hs, Ht, Hip.
  - rewrite (transition_close st1 e Hd Hs1), (transition_close st2 e Hd Hs).
    simpl. rewrite !adopt_name_start_ip. by rewrite Ht, Hip.
  - rewrite (transition_other st1 e Hc Hd), (transition_other st2 e Hc Hd).
    simpl.
    rewrite !adopt_name_status, !adopt_name_start_time, !adopt_name_start_ip.
    by rewrite Hs1, Hs, Ht, Hip.
  - rewrite (transition_other st1 e Hc Hd), (transition_other st2 e Hc Hd).
    simpl.
    rewrite !adopt_name_status, !adopt_name_start_time, !adopt_name_start_ip.
    by rewrite Hs1, Hs, Ht, Hip.
Qed.

Lemma run_peer_same_session (p : list entry) (st1 st2 : peer_state) :
  same_session st1 st2 ->
  same_session (fst (run_peer st1 p)) (fst (run_peer st2 p))
  /\ boundaries <$> snd (run_peer st1 p)
     = boundaries <$> snd (run_peer st2 p).
Proof.
  revert st1 st2. induction p as [|e p IH]; intros st1 st2 Hsame; simpl;
    [done|].
  destruct (transition_same_session st1 st2 e Hsame) as [H1 H2].
  destruct (transition st1 e) as [x1 out1].
  destruct (transition st2 e) as [x2 out2]. simpl in H1, H2.
  destruct (IH x1 x2 H1) as [H3 H4].
  destruct (run_peer x1 p) as [y1 outs1].
  destruct (run_peer x2 p) as [y2 outs2]. simpl in *.
  split; [done|]. by rewrite !fmap_app, H2, H4.
Qed.

(** X17.  An entry whose event is neither a connect nor a disconnect
    opens and closes nothing: with or without it, every peer gets
    completed sessions with the same start times, end times and endpoints,
    and is left with the same status and start fields.  (Such an entry
    can still give its peer a name, and as the last entry of the stream
    it sets the time up to which open sessions are reported.) *)
Theorem X17_other_events_move_no_boundary :
  forall (l1 l2 : list entry) (e : entry) (key : string),
    is_connect_event e = false -> is_disconnect_event e = false ->
    boundaries <$> sessions_of key (completed_sessions (l1 ++ e :: l2))
    = boundaries <$> sessions_of key (completed_sessions (l1 ++ l2))
    /\ same_session (peer_view (final_states (l1 ++ e :: l2)) key)
                    (peer_view (final_states (l1 ++ l2)) key).
Proof.
  intros l1 l2 e key Hc Hd.
  destruct (reconstruct_peer key (l1 ++ e :: l2) []) as [Hview Hout].
  destruct (reconstruct_peer key (l1 ++ l2) []) as [Hview' Hout'].
  unfold final_states, completed_sessions.
  rewrite Hview, Hout, Hview', Hout'. clear Hview Hout Hview' Hout'.
  unfold for_peer. rewrite !filter_app, filter_cons.
  destruct (decide (peer_key e = key)) as [_|_]; [|done].
  rewrite !run_peer_app.
  destruct (run_peer (peer_view [] key) (filter _ l1)) as [st1 out1].
  cbn [run_peer]. rewrite (transition_other st1 e Hc Hd).
  destruct (run_peer_same_session (filter (fun e0 => peer_key e0 = key) l2)
              (adopt_name st1 e) st1) as [H1 H2].
  { unfold same_session.
    by rewrite adopt_name_status, adopt_name_start_time,
      adopt_name_start_ip. }
  destruct (run_peer (adopt_name st1 e) _) as [x1 outs1].
  destruct (run_peer st1 _) as [x2 outs2]. simpl in *.
  split; [|done]. by rewrite !fmap_app, H2.
Qed.

Lemma X17_other_events_move_no_boundary_witness :
  is_connect_event
    (Sample.entry_at (Sample.jan 1 10 30 0) "HANDSHAKE" "K1" "Alice"
                     "198.51.100.7") = false
  /\ is_disconnect_event
       (Sample.entry_at (Sample.jan 1 10 30 0) "HANDSHAKE" "K1" "Alice"
                        "198.51.100.7") = false
  /\ boundaries
       <$> sessions_of "K1"
             (completed_sessions
                ([Sample.c1]
                 ++ Sample.entry_at (Sample.jan 1 10 30 0) "HANDSHAKE" "K1"
                                    "Alice" "198.51.100.7"
                    :: [Sample.d1]))
     = boundaries
         <$> sessions_of "K1" (completed_sessions ([Sample.c1] ++ [Sample.d1])).
Proof.
  split; [reflexivity|]. split; [reflexivity|].
  exact (proj1 (X17_other_events_move_no_boundary [Sample.c1] [Sample.d1]
                  (Sample.entry_at (Sample.jan 1 10 30 0) "HANDSHAKE" "K1"
                                   "Alice" "198.51.100.7")
                  "K1" eq_refl eq_refl)).
Defined.

(** ** The order of the rows *)

Lemma StronglySorted_sublist {A} (R : relation A) (l1 l2 : list A) :
  l1 `sublist_of` l2 -> StronglySorted R l2 -> StronglySorted R l1.
Proof.
  induction 1 as [|x l1 l2 Hsub IH|x l1 l2 Hsub IH]; intros Hsorted;
    [done| |].
  - apply StronglySorted_inv in Hsorted as [Hsorted Hx].
    constructor; [by apply IH|].
    apply Forall_forall. intros y Hy. rewrite Forall_forall in Hx.
    apply Hx. by eapply elem_of_sublist.
  - apply StronglySorted_inv in Hsorted as [Hsorted _]. by apply IH.
Qed.

Lemma transition_end (st : peer_state) (e : entry) :
  at_end_time <$> snd (transition st e) `sublist_of` [Some (timestamp e)].
Proof.
  unfold transition.
  destruct (is_connect_event e), (is_disconnect_event e),
    (status (adopt_name st e)); simpl;
    first [ by apply sublist_cons, sublist_nil
          | by apply sublist_skip, sublist_nil ].
Qed.

Lemma reconstruct_ends (l : list entry) (ps : peer_states) :
  at_end_time <$> snd (reconstruct ps l)
  `sublist_of` (Some ∘ timestamp) <$> l.
Proof.
  revert ps. induction l as [|e l IH]; intros ps; simpl; [constructor|].
  destruct (step_same ps e) as [_ Hout].
  pose proof (transition_end (peer_view ps (peer_key e)) e) as Hend.
  rewrite <- Hout in Hend.
  destruct (step ps e) as [ps1 out]. specialize (IH ps1).
  destruct (reconstruct ps1 l) as [ps2 outs]. simpl in *.
  rewrite fmap_app.
  apply (sublist_app _ [Some (timestamp e)] _ _ Hend IH).
Qed.

(** X18.  The rows come in a fixed order: first the completed sessions,
    in the order in which they ended (on a chronological stream their end
    times never decrease, across all peers), then the open sessions. *)
Theorem X18_rows_are_ordered_by_end :
  forall l : list entry,
    chronological l ->
    calculate_sessions l
    = completed_sessions l
      ++ ongoing_sessions (last_log_time l) (final_states l)
    /\ StronglySorted known_le (at_end_time <$> completed_sessions l).
Proof.
  intros l Hl. split; [apply calculate_sessions_split|].
  apply (StronglySorted_sublist _ _ _ (reconstruct_ends l [])).
  by apply (StronglySorted_fmap _ (fun x y => dt_le (timestamp x) (timestamp y))).
Qed.

Lemma X18_rows_are_ordered_by_end_witness :
  chronological Demo.two_sessions
  /\ at_end_time <$> completed_sessions Demo.two_sessions
     = [Some (timestamp Sample.d1); Some (timestamp Demo.d2)]
  /\ StronglySorted known_le
       (at_end_time <$> completed_sessions Demo.two_sessions).
Proof.
  assert (chronological Demo.two_sessions) as Hsorted.
  { change Demo.two_sessions with (sort_entries Demo.two_sessions).
    apply sort_entries_chronological. }
  split; [exact Hsorted|]. split; [reflexivity|].
  exact (proj2 (X18_rows_are_ordered_by_end Demo.two_sessions Hsorted)).
Defined.

(** ** Completed sessions are final *)

(** X19.  What follows in the stream never revises a completed session:
    the completed sessions of a stream are, unchanged and in the same
    order, the first completed sessions of any longer stream, followed by
    those that the rest of the stream gives from the states reached. *)
Theorem X19_completed_sessions_are_final :
  forall l rest : list entry,
    completed_sessions (l ++ rest)
    = completed_sessions l ++ snd (reconstruct (final_states l) rest)
    /\ final_states (l ++ rest) = fst (reconstruct (final_states l) rest)
    /\ completed_sessions l `prefix_of` completed_sessions (l ++ rest).
Proof.
  intros l rest. unfold completed_sessions, final_states.
  rewrite reconstruct_app.
  destruct (reconstruct [] l) as [ps1 out1]. simpl.
  destruct (reconstruct ps1 rest) as [ps2 out2]. simpl.
  split; [done|]. split; [done|]. by exists out2.
Qed.
